(** * The data aggregator agent (agents/aggregator/aggregator_agent.py)

    A shallow embedding of [DataAggregator]: its attributes become a record,
    its methods become functions in a state-and-exception monad, and the
    blocking loop of [start_aggregate] becomes a transition system whose
    events are the points at which the loop sleeps and the callbacks run.

    Conventions.
    - Wall-clock readings ([time.time()], [datetime.utcnow().timestamp()]) and
      sample values are Python floats; they are modelled by exact rationals.
    - A Python [dict] is an insertion-ordered association list ([Dict]): the
      order of [items()] decides the order of the frames in a file.
    - A raised exception keeps the state reached when it was raised.
    - A callback or a task runs to its end between two sleeps of the loop;
      the interleaving of threads inside one method is not modelled. *)

From Stdlib Require Import QArith.
From stdpp Require Import gmap strings list fin_maps.

Local Open Scope string_scope.
Local Open Scope list_scope.

(** ** Python dictionaries *)

Module Dict.
Section defs.
Context {V : Type}.

(** [d[k]], [None] standing for [KeyError]. *)
Fixpoint get (d : list (string * V)) (k : string) : option V :=
  match d with
  | [] => None
  | (k', v) :: d' => if decide (k' = k) then Some v else get d' k
  end.

(** [d[k] = v]: an existing key keeps its position, a new one goes last. *)
Fixpoint set (d : list (string * V)) (k : string) (v : V) : list (string * V) :=
  match d with
  | [] => [(k, v)]
  | (k', v') :: d' =>
      if decide (k' = k) then (k', v) :: d' else (k', v') :: set d' k v
  end.

(** [k in d]. *)
Definition mem (d : list (string * V)) (k : string) : bool :=
  match get d k with Some _ => true | None => false end.

Definition keys (d : list (string * V)) : list string := d.*1.

Lemma get_set_eq d k v : get (set d k v) k = Some v.
Proof.
  induction d as [|[k' v'] d IH]; simpl.
  - by rewrite decide_True.
  - destruct (decide (k' = k)) as [->|Hne]; simpl.
    + by rewrite decide_True.
    + by rewrite decide_False.
Qed.

Lemma get_set_ne d k k' v : k ≠ k' → get (set d k v) k' = get d k'.
Proof.
  intros Hne. induction d as [|[k0 v0] d IH]; simpl.
  - by rewrite decide_False.
  - destruct (decide (k0 = k)) as [->|Hk]; simpl.
    + by rewrite !decide_False.
    + destruct (decide (k0 = k')); done.
Qed.

Lemma get_Some_elem d k v : get d k = Some v → (k, v) ∈ d.
Proof.
  induction d as [|[k' v'] d IH]; simpl; [done|].
  destruct (decide (k' = k)) as [->|Hne].
  - intros [= ->]. apply list_elem_of_here.
  - intros H. apply list_elem_of_further. auto.
Qed.

Lemma get_None_keys d k : get d k = None ↔ k ∉ keys d.
Proof.
  unfold keys. induction d as [|[k' v'] d IH]; simpl.
  - split; [intros _; apply not_elem_of_nil | done].
  - rewrite not_elem_of_cons. destruct (decide (k' = k)) as [->|Hne].
    + split; [done | intros [? _]; done].
    + rewrite IH. split; [intros ?; split; [congruence | done] | intros [_ ?]; done].
Qed.

Lemma get_is_Some_keys d k : is_Some (get d k) ↔ k ∈ keys d.
Proof.
  destruct (get d k) eqn:E.
  - split; [intros _ | eauto].
    destruct (decide (k ∈ keys d)) as [|Hn]; [done|].
    apply get_None_keys in Hn. congruence.
  - split; [intros [? ?]; done | intros Hin].
    apply get_None_keys in E. done.
Qed.

Lemma keys_set_present d k v : k ∈ keys d → keys (set d k v) = keys d.
Proof.
  unfold keys. induction d as [|[k' v'] d IH]; simpl.
  - intros H. by apply elem_of_nil in H.
  - destruct (decide (k' = k)) as [->|Hne]; simpl; [done|].
    intros [?|?]%elem_of_cons; [congruence|]. f_equal. auto.
Qed.

Lemma keys_set_absent d k v : k ∉ keys d → keys (set d k v) = keys d ++ [k].
Proof.
  unfold keys. induction d as [|[k' v'] d IH]; simpl; [done|].
  rewrite not_elem_of_cons. intros [Hne Hnin].
  rewrite decide_False by congruence. simpl. f_equal. auto.
Qed.

(** The shape of a dictionary around the entry found by [get]. *)
Lemma get_Some_split d k v :
  get d k = Some v →
  ∃ d1 d2, d = d1 ++ ((k, v) :: d2) ∧ (k ∉ keys d1) ∧
           (∀ w, set d k w = d1 ++ ((k, w) :: d2)).
Proof.
  induction d as [|[k' v'] d IH]; simpl; [done|].
  destruct (decide (k' = k)) as [->|Hne].
  - intros [= ->]. exists [], d. split_and!; [done | apply not_elem_of_nil |].
    intros w. done.
  - intros H. destruct (IH H) as (d1 & d2 & -> & Hnin & Hset).
    exists ((k', v') :: d1), d2. split_and!; [done | |].
    + unfold keys. simpl. rewrite not_elem_of_cons. split; [congruence | done].
    + intros w. simpl. by rewrite Hset.
Qed.

Lemma keys_app d1 d2 : keys (d1 ++ d2) = keys d1 ++ keys d2.
Proof. unfold keys. apply fmap_app. Qed.

Lemma get_app_fresh d1 d2 k : k ∉ keys d1 → get (d1 ++ d2) k = get d2 k.
Proof.
  unfold keys. induction d1 as [|[k' v'] d1 IH]; simpl; [done|].
  rewrite not_elem_of_cons. intros [Hne Hnin].
  rewrite decide_False by congruence. auto.
Qed.

Lemma set_fresh d k v : k ∉ keys d → set d k v = d ++ [(k, v)].
Proof.
  unfold keys. induction d as [|[k' v'] d IH]; simpl; [done|].
  rewrite not_elem_of_cons. intros [Hne Hnin].
  rewrite decide_False by congruence. f_equal. auto.
Qed.

Lemma keys_set_mono d k v k' : k' ∈ keys d → k' ∈ keys (set d k v).
Proof.
  intros Hin. destruct (decide (k ∈ keys d)) as [Hk|Hk].
  - by rewrite keys_set_present.
  - rewrite keys_set_absent by done. apply elem_of_app. by left.
Qed.


Lemma get_set d k v k' :
  get (set d k v) k' = if decide (k = k') then Some v else get d k'.
Proof.
  destruct (decide (k = k')) as [<-|Hne].
  - apply get_set_eq.
  - by apply get_set_ne.
Qed.

Lemma set_app_fresh d1 d2 k v :
  k ∉ keys d1 → set (d1 ++ d2) k v = d1 ++ set d2 k v.
Proof.
  unfold keys. induction d1 as [|[k' v'] d1 IH]; simpl; [done|].
  rewrite not_elem_of_cons. intros [Hne Hnin].
  rewrite decide_False by congruence. f_equal. auto.
Qed.

Lemma set_set d k v w : set (set d k v) k w = set d k w.
Proof.
  induction d as [|[k' v'] d IH]; simpl.
  - by rewrite decide_True.
  - destruct (decide (k' = k)) as [->|Hne]; simpl.
    + by rewrite decide_True.
    + rewrite decide_False by done. by rewrite IH.
Qed.

Lemma get_NoDup_elem d k v : NoDup (keys d) → (k, v) ∈ d → get d k = Some v.
Proof.
  unfold keys. induction d as [|[k' v'] d IH]; simpl.
  - intros _ H. by apply elem_of_nil in H.
  - intros Hnd Hin. apply NoDup_cons in Hnd as [Hk Hnd].
    apply elem_of_cons in Hin as [[= -> ->]|Hin].
    + by rewrite decide_True.
    + rewrite decide_False; [auto|].
      intros ->. apply Hk. apply list_elem_of_fmap. by exists (k, v).
Qed.
End defs.
End Dict.

Abbreviation Dict V := (list (string * V)).

(** ** Exceptions *)

Inductive exn :=
| KeyError (k : string)
| ValueError
| TypeError
| OSError.

(** ** [str.split] and [str.format] as used for feed addresses *)

(** [s.startswith(p)] *)
Fixpoint startswith (p s : string) : bool :=
  match p, s with
  | EmptyString, _ => true
  | String a p', String b s' => if decide (a = b) then startswith p' s' else false
  | String _ _, EmptyString => false
  end.

(** [s.split(sep)] for a non-empty [sep]: leftmost matches, not overlapping.
    [skip] counts the characters of a matched separator still to be passed
    over, [cur] is the piece being collected. *)
Fixpoint split_go (sep s : string) (skip : nat) (cur : string) : list string :=
  match s with
  | EmptyString => [cur]
  | String c s' =>
      match skip with
      | S n => split_go sep s' n cur
      | O =>
          if startswith sep s
          then cur :: split_go sep s' (String.length sep - 1) ""
          else split_go sep s' 0 (cur +:+ String c "")
      end
  end.

Definition split (sep s : string) : list string := split_go sep s 0 "".

(** ["{}.feeds.{}".format(agent_address, feed_name)] *)
Definition feed_address_of (agent_address feed_name : string) : string :=
  agent_address +:+ ".feeds." +:+ feed_name.

(** [a, b = feed_address.split(".feeds.")]: unpacking needs exactly two pieces. *)
Definition split_address (feed_address : string) : exn + (string * string) :=
  match split ".feeds." feed_address with
  | [a; b] => inr (a, b)
  | _ => inl ValueError
  end.

Example split_address_ex1 :
  split_address "dev1.feeds.therm" = inr ("dev1", "therm").
Proof. reflexivity. Qed.

Example split_address_ex2 : split_address "dev1" = inl ValueError.
Proof. reflexivity. Qed.

Example split_address_ex3 : split_address "a.feeds.b.feeds.c" = inl ValueError.
Proof. reflexivity. Qed.

Example split_address_ex4 :
  split_address (feed_address_of "x.feeds" "y") = inr ("x", "feeds.y").
Proof. reflexivity. Qed.

(** [sep.join(pieces)] *)
Fixpoint join (sep : string) (pieces : list string) : string :=
  match pieces with
  | [] => ""
  | x :: rest =>
      match rest with
      | [] => x
      | _ :: _ => x +:+ sep +:+ join sep rest
      end
  end.

Lemma join_cons sep x pieces :
  pieces ≠ [] → join sep (x :: pieces) = x +:+ sep +:+ join sep pieces.
Proof. by destruct pieces. Qed.

Lemma string_app_cons x (a b : string) : String x a +:+ b = String x (a +:+ b).
Proof. reflexivity. Qed.

Lemma string_app_nil_l (a : string) : "" +:+ a = a.
Proof. reflexivity. Qed.

Lemma string_app_assoc (a b c : string) : (a +:+ b) +:+ c = a +:+ (b +:+ c).
Proof.
  induction a as [|x a IH]; [done|].
  rewrite !string_app_cons. by rewrite IH.
Qed.

Lemma string_app_nil_r (a : string) : a +:+ "" = a.
Proof.
  induction a as [|x a IH]; [done|]. rewrite string_app_cons. by rewrite IH.
Qed.

Lemma startswith_app p s : startswith p s = true → ∃ r, s = p +:+ r.
Proof.
  revert s. induction p as [|a p IH]; intros s; simpl.
  - intros _. by exists s.
  - destruct s as [|b s]; [done|]. case_decide as Hab; [|done].
    intros [r ->]%IH. exists r. by subst.
Qed.

Lemma split_go_nonempty sep s skip cur : split_go sep s skip cur ≠ [].
Proof.
  revert skip cur. induction s as [|c s IH]; intros skip cur; simpl; [done|].
  destruct skip; [|apply IH]. destruct (startswith sep (String c s)); [done|].
  apply IH.
Qed.

(** Joining the pieces gives the string back: [sep.join(s.split(sep)) == s].
    Stated for the loop, where [skipped] is what is left of a separator. *)
Lemma split_go_join c0 sep0 s skipped rest cur :
  s = skipped +:+ rest →
  join (String c0 sep0)
       (split_go (String c0 sep0) s (String.length skipped) cur)
  = cur +:+ rest.
Proof.
  set (sep := String c0 sep0).
  revert skipped rest cur.
  induction s as [|c s IH]; intros skipped rest cur Hs.
  - destruct skipped; [|done]. rewrite string_app_nil_l in Hs. subst rest.
    simpl. by rewrite string_app_nil_r.
  - destruct skipped as [|c' skipped].
    + rewrite string_app_nil_l in Hs. subst rest.
      cbn [String.length split_go].
      destruct (startswith sep (String c s)) eqn:Hm.
      * apply startswith_app in Hm as [r Hr]. subst sep.
        rewrite string_app_cons in Hr. injection Hr as -> ->.
        cbn [String.length Nat.sub]. rewrite Nat.sub_0_r.
        pose proof (IH sep0 r "" eq_refl) as Hj.
        pose proof (split_go_nonempty (String c0 sep0) (sep0 +:+ r)
                      (String.length sep0) "") as Hne.
        rewrite join_cons by done. rewrite Hj, string_app_nil_l.
        by rewrite string_app_cons.
      * etrans; [apply (IH "" s (cur +:+ String c "") eq_refl)|].
        by rewrite string_app_assoc.
    + rewrite string_app_cons in Hs. injection Hs as <- ->.
      cbn [String.length split_go]. by apply IH.
Qed.

Lemma split_address_join feed_address agent_address feed :
  split_address feed_address = inr (agent_address, feed) →
  feed_address = feed_address_of agent_address feed.
Proof.
  unfold split_address, split.
  pose proof (split_go_join (Ascii.ascii_of_nat 46) "feeds." feed_address ""
                feed_address "" eq_refl) as Hj.
  cbn [String.length] in Hj. rewrite string_app_nil_l in Hj.
  destruct (split_go _ _ _ _) as [|a [|b [|c l]]]; try done.
  intros [= -> ->]. rewrite join_cons in Hj by done. by rewrite <- Hj.
Qed.

(** When does an address built from an agent address and a feed name split
    back into the two? When [".feeds."] occurs in it nowhere but between
    them: [clean_before a rest] says that no occurrence starts within [a] in
    [a +:+ rest]. *)
Fixpoint clean_before (a rest : string) : bool :=
  match a with
  | EmptyString => true
  | String c a' =>
      negb (startswith ".feeds." (a +:+ rest)) && clean_before a' rest
  end.

Lemma split_go_clean_before a rest cur :
  clean_before a rest = true →
  split_go ".feeds." (a +:+ rest) 0 cur
  = split_go ".feeds." rest 0 (cur +:+ a).
Proof.
  revert cur. induction a as [|c a IH]; intros cur.
  - intros _. by rewrite string_app_nil_l, string_app_nil_r.
  - cbn [clean_before]. intros [Hc Ha]%andb_true_iff.
    apply negb_true_iff in Hc. rewrite string_app_cons in *.
    cbn [split_go]. rewrite Hc, (IH _ Ha).
    by rewrite string_app_assoc.
Qed.

Lemma split_go_skip sep x rest cur :
  split_go sep (x +:+ rest) (String.length x) cur = split_go sep rest 0 cur.
Proof.
  induction x as [|c x IH]; [done|].
  rewrite string_app_cons. cbn [String.length split_go]. exact IH.
Qed.

Lemma split_address_feed_address_of agent_address feed_name :
  clean_before agent_address (".feeds." +:+ feed_name) = true →
  clean_before feed_name "" = true →
  split_address (feed_address_of agent_address feed_name)
  = inr (agent_address, feed_name).
Proof.
  intros Ha Hf. unfold split_address, split, feed_address_of.
  rewrite (split_go_clean_before _ _ _ Ha), string_app_nil_l.
  change (".feeds." +:+ feed_name)
    with (String (Ascii.ascii_of_nat 46) ("feeds." +:+ feed_name)).
  cbn [split_go].
  change (startswith ".feeds."
            (String (Ascii.ascii_of_nat 46) ("feeds." +:+ feed_name)))
    with true. cbv iota.
  change (String.length ".feeds." - 1) with (String.length "feeds.").
  rewrite split_go_skip.
  rewrite <- (string_app_nil_r feed_name) at 1.
  rewrite (split_go_clean_before _ _ _ Hf), string_app_nil_l. done.
Qed.

(** ** Data model *)

(** A data point maps a timestream name to [(timestamp, reading)]. *)
Abbreviation DataPoint := (Dict (Q * Q)).

(** The frames handed to the G3 writer: a housekeeping frame carries
    [frame["agent_address"]], [frame["feed"]], [frame["TODs"]] and
    [frame["Timestamps"]]. *)
Inductive Frame :=
| Housekeeping (agent_address feed : string) (TODs Timestamps : Dict (list Q))
| EndProcessing.

(** A [G3Writer]: the file it was opened on and the frames written so far. *)
Record Writer := mkWriter {
  w_filename : string;
  w_frames : list Frame;
}.

(** The attributes of a [DataAggregator], followed by what the object acts
    on: the feed registrations made through [agent.subscribe_to_feed], the
    writers that [self.file] no longer refers to, and the history of the
    arguments of [write_frame_to_file]. *)
Record State := mkState {
  subscribed_feeds : list string;
  buffers : Dict (list DataPoint);
  buffer_start_times : gmap string Q;
  aggregate : bool;
  filename : string;
  file : option Writer;
  registrations : list (string * string);
  released : list Writer;
  serializer_calls : list (string * list DataPoint);
}.

(** [DataAggregator.__init__] *)
Definition init : State :=
  {| subscribed_feeds := [];
     buffers := [];
     buffer_start_times := ∅;
     aggregate := false;
     filename := "";
     file := None;
     registrations := [];
     released := [];
     serializer_calls := [] |}.

Definition with_buffers (b : Dict (list DataPoint)) (st : State) : State :=
  {| subscribed_feeds := subscribed_feeds st; buffers := b;
     buffer_start_times := buffer_start_times st; aggregate := aggregate st;
     filename := filename st; file := file st;
     registrations := registrations st; released := released st;
     serializer_calls := serializer_calls st |}.

Definition with_start_times (m : gmap string Q) (st : State) : State :=
  {| subscribed_feeds := subscribed_feeds st; buffers := buffers st;
     buffer_start_times := m; aggregate := aggregate st;
     filename := filename st; file := file st;
     registrations := registrations st; released := released st;
     serializer_calls := serializer_calls st |}.

Definition with_aggregate (a : bool) (st : State) : State :=
  {| subscribed_feeds := subscribed_feeds st; buffers := buffers st;
     buffer_start_times := buffer_start_times st; aggregate := a;
     filename := filename st; file := file st;
     registrations := registrations st; released := released st;
     serializer_calls := serializer_calls st |}.

Definition with_filename (f : string) (st : State) : State :=
  {| subscribed_feeds := subscribed_feeds st; buffers := buffers st;
     buffer_start_times := buffer_start_times st; aggregate := aggregate st;
     filename := f; file := file st;
     registrations := registrations st; released := released st;
     serializer_calls := serializer_calls st |}.

Definition with_file (w : option Writer) (st : State) : State :=
  {| subscribed_feeds := subscribed_feeds st; buffers := buffers st;
     buffer_start_times := buffer_start_times st; aggregate := aggregate st;
     filename := filename st; file := w;
     registrations := registrations st; released := released st;
     serializer_calls := serializer_calls st |}.

Definition with_released (ws : list Writer) (st : State) : State :=
  {| subscribed_feeds := subscribed_feeds st; buffers := buffers st;
     buffer_start_times := buffer_start_times st; aggregate := aggregate st;
     filename := filename st; file := file st;
     registrations := registrations st; released := ws;
     serializer_calls := serializer_calls st |}.

Definition with_call (c : string * list DataPoint) (st : State) : State :=
  {| subscribed_feeds := subscribed_feeds st; buffers := buffers st;
     buffer_start_times := buffer_start_times st; aggregate := aggregate st;
     filename := filename st; file := file st;
     registrations := registrations st; released := released st;
     serializer_calls := serializer_calls st ++ [c] |}.

Definition with_subscription (agent_address feed_name feed_address : string)
    (st : State) : State :=
  {| subscribed_feeds := subscribed_feeds st ++ [feed_address];
     buffers := buffers st;
     buffer_start_times := buffer_start_times st; aggregate := aggregate st;
     filename := filename st; file := file st;
     registrations := registrations st ++ [(agent_address, feed_name)];
     released := released st;
     serializer_calls := serializer_calls st |}.

(** ** The state-and-exception monad *)

Inductive Res (A : Type) :=
| Ok (a : A) (st : State)
| Raise (e : exn) (st : State).
Arguments Ok {A} a st.
Arguments Raise {A} e st.

Definition M (A : Type) : Type := State → Res A.

Definition ret {A} (a : A) : M A := fun st => Ok a st.
Definition raise {A} (e : exn) : M A := fun st => Raise e st.
Definition bind {A B} (m : M A) (k : A → M B) : M B :=
  fun st => match m st with
            | Ok a st' => k a st'
            | Raise e st' => Raise e st'
            end.
Definition modify (f : State → State) : M unit := fun st => Ok tt (f st).
Definition reads {A} (f : State → A) : M A := fun st => Ok (f st) st.

Notation "x <- m ;; k" := (bind m (fun x => k))
  (at level 63, m at next level, right associativity).

Lemma bind_Ok {A B} (m : M A) (k : A → M B) st a st' :
  m st = Ok a st' → bind m k st = k a st'.
Proof. unfold bind. by intros ->. Qed.

Lemma bind_Raise {A B} (m : M A) (k : A → M B) st e st' :
  m st = Raise e st' → bind m k st = Raise e st'.
Proof. unfold bind. by intros ->. Qed.

Definition final_state {A} (r : Res A) : State :=
  match r with Ok _ st => st | Raise _ st => st end.

Definition raised {A} (r : Res A) : bool :=
  match r with Ok _ _ => false | Raise _ _ => true end.

(** ** The frame serializer, pure part (write_frame_to_file, lines 184-208) *)

(** [d[key].append(x)] *)
Definition append_at (d : Dict (list Q)) (key : string) (x : Q)
    : exn + Dict (list Q) :=
  match Dict.get d key with
  | Some l => inr (Dict.set d key (l ++ [x]))
  | None => inl (KeyError key)
  end.

(** The body of the inner loop, on [(tods, timestamps)]; [val] is
    [(timestamp, reading)], so [val[1]] goes to [tods]. *)
Definition add_item (acc : exn + Dict (list Q) * Dict (list Q))
    (item : string * (Q * Q)) : exn + Dict (list Q) * Dict (list Q) :=
  match acc with
  | inl e => inl e
  | inr (tods, timestamps) =>
      let '(key, val) := item in
      if Dict.mem tods key then
        match append_at tods key val.2 with
        | inl e => inl e
        | inr tods' =>
            match append_at timestamps key val.1 with
            | inl e => inl e
            | inr timestamps' => inr (tods', timestamps')
            end
        end
      else inr (Dict.set tods key [val.2], Dict.set timestamps key [val.1])
  end.

(** [for data_point in buffer: for key, val in data_point.items(): ...] *)
Definition collect (buffer : list DataPoint)
    : exn + Dict (list Q) * Dict (list Q) :=
  foldl (fun acc data_point => foldl add_item acc data_point)
        (inr ([], [])) buffer.

(** The body of [for key in tods], on [(tod_map, timestamp_map)]. *)
Definition add_stream (tods timestamps : Dict (list Q))
    (acc : exn + Dict (list Q) * Dict (list Q)) (key : string)
    : exn + Dict (list Q) * Dict (list Q) :=
  match acc with
  | inl e => inl e
  | inr (tod_map, timestamp_map) =>
      match Dict.get tods key with
      | None => inl (KeyError key)
      | Some vs =>
          match Dict.get timestamps key with
          | None => inl (KeyError key)
          | Some ts =>
              inr (Dict.set tod_map key vs, Dict.set timestamp_map key ts)
          end
      end
  end.

Definition to_maps (tods timestamps : Dict (list Q))
    : exn + Dict (list Q) * Dict (list Q) :=
  foldl (add_stream tods timestamps) (inr ([], [])) (Dict.keys tods).

(** The housekeeping frame of a buffer; the address is split first. *)
Definition make_frame (feed_address : string) (buffer : list DataPoint)
    : exn + Frame :=
  match split_address feed_address with
  | inl e => inl e
  | inr (agent_address, feed) =>
      match collect buffer with
      | inl e => inl e
      | inr (tods, timestamps) =>
          match to_maps tods timestamps with
          | inl e => inl e
          | inr (tod_map, timestamp_map) =>
              inr (Housekeeping agent_address feed tod_map timestamp_map)
          end
      end
  end.

(** ** What the agent does not decide itself *)

(** The G3 writer, the file system and the formatting of a start time into
    a path belong to libraries; the model takes their answers from here. *)
Record Env := mkEnv {
  (** [self.file(frame)] returns rather than raises *)
  sink_accepts : Writer → Frame → bool;
  (** [os.path.exists(d)] holds, or [os.makedirs(d)] returns *)
  dir_ready : string → bool;
  (** [core.G3Writer(filename=f)] returns *)
  writer_opens : string → bool;
  (** [os.path.join(data_dir, "{:.5}".format(str(ts)))] *)
  sub_dir_path : string → Q → string;
  (** [os.path.join(sub_dir, "{}.g3".format(time_string))] *)
  file_path : string → Q → string;
}.

(** The metadata passed with a delivery, [feed["address"]] and
    [feed["buffer_time"]]. [feed["buffered"]] fixes the shape of the data: a
    buffered feed publishes its own buffer, a list of data points, any other
    feed publishes one data point. *)
Record Feed := mkFeed {
  address : string;
  buffer_time : Q;
}.

Inductive Delivery :=
| Buffered (data : list DataPoint) (feed : Feed)
| Unbuffered (data : DataPoint) (feed : Feed).

Definition buffered (d : Delivery) : bool :=
  match d with Buffered _ _ => true | Unbuffered _ _ => false end.

Definition feed_of (d : Delivery) : Feed :=
  match d with Buffered _ f => f | Unbuffered _ f => f end.

(** The parameters of the add_feed task, [None] an absent key; the values
    are the strings its docstring asks for. *)
Record FeedParams := mkFeedParams {
  p_agent_address : option string;
  p_feed_name : option string;
}.

(** The parameters of the aggregate process, [None] an absent key; the
    values are whatever the caller sent, and the process finds out when it
    uses them. *)
Inductive PyVal :=
| PNone
| PNum (q : Q)
| PStr (s : string).

Record StartParams := mkStartParams {
  p_time_per_file : option PyVal;
  p_time_per_frame : option PyVal;
  p_data_dir : option PyVal;
}.

(** [x > y] on clock readings *)
Definition Qgtb (x y : Q) : bool := negb (Qle_bool x y).

Definition is_nil {A} (l : list A) : bool :=
  match l with [] => true | _ => false end.

(** ** The methods of [DataAggregator] *)

Section Aggregator.
Variable env : Env.

(** [self.file(frame)]; with [self.file] still [None] the call raises. *)
Definition file_call (frame : Frame) : M unit := fun st =>
  match file st with
  | None => Raise TypeError st
  | Some w =>
      if sink_accepts env w frame
      then Ok tt (with_file
                    (Some (mkWriter (w_filename w) (w_frames w ++ [frame]))) st)
      else Raise OSError st
  end.

Definition lift {A} (r : exn + A) : M A := fun st =>
  match r with inl e => Raise e st | inr a => Ok a st end.

Definition write_frame_to_file (feed_address : string)
    (buffer : list DataPoint) : M unit :=
  _ <- modify (with_call (feed_address, buffer)) ;;
  frame <- lift (make_frame feed_address buffer) ;;
  file_call frame.

(** [self.buffers[addr]] *)
Definition buffer_at (addr : string) : M (list DataPoint) := fun st =>
  match Dict.get (buffers st) addr with
  | Some b => Ok b st
  | None => Raise (KeyError addr) st
  end.

(** [self.buffer_start_times[addr]] *)
Definition start_time_at (addr : string) : M Q := fun st =>
  match buffer_start_times st !! addr with
  | Some t => Ok t st
  | None => Raise (KeyError addr) st
  end.

Definition set_buffer (addr : string) (b : list DataPoint) : M unit :=
  modify (fun st => with_buffers (Dict.set (buffers st) addr b) st).

Definition set_start_time (addr : string) (t : Q) : M unit :=
  modify (fun st =>
    with_start_times (<[addr := t]> (buffer_start_times st)) st).

(** The callback registered by [add_feed]; [current_time] is the reading
    of [time.time()] at line 77. *)
Definition _data_handler (_data : Delivery) (current_time : Q) : M unit :=
  running <- reads aggregate ;;
  if negb running then ret tt
  else
    match _data with
    | Buffered data feed => write_frame_to_file (address feed) data
    | Unbuffered data feed =>
        let addr := address feed in
        b <- buffer_at addr ;;
        _ <- (if is_nil b then set_start_time addr current_time else ret tt) ;;
        t0 <- start_time_at addr ;;
        _ <- (if Qgtb (current_time - t0) (buffer_time feed)
              then (b <- buffer_at addr ;;
                    _ <- write_frame_to_file addr b ;;
                    _ <- set_start_time addr current_time ;;
                    set_buffer addr [])
              else ret tt) ;;
        b <- buffer_at addr ;;
        set_buffer addr (b ++ [data])
    end.

Definition add_feed (agent_address feed_name : string) : M unit :=
  let feed_address := feed_address_of agent_address feed_name in
  subscribed <- reads subscribed_feeds ;;
  if bool_decide (feed_address ∈ subscribed) then ret tt
  else
    _ <- modify (with_subscription agent_address feed_name feed_address) ;;
    set_buffer feed_address [].

Definition add_feed_task (params : option FeedParams) : M (bool * string) :=
  let params := default (mkFeedParams None None) params in
  match p_agent_address params with
  | None => raise (KeyError "agent_address")
  | Some agent_address =>
      match p_feed_name params with
      | None => raise (KeyError "feed_name")
      | Some feed_name =>
          let feed_address := feed_address_of agent_address feed_name in
          subscribed <- reads subscribed_feeds ;;
          if bool_decide (feed_address ∈ subscribed)
          then ret (false, "Already subscribed to feed " +:+ feed_address)
          else (_ <- add_feed agent_address feed_name ;;
                ret (true, "Subscribed to data feeds."))
      end
  end.

Definition start_file : M unit := fun st =>
  if writer_opens env (filename st)
  then Ok tt (with_file (Some (mkWriter (filename st) []))
                (with_released (released st ++ option_list (file st)) st))
  else Raise OSError st.

(** The loop of [end_file] over [self.buffers.items()]. *)
Fixpoint flush_items (items : Dict (list DataPoint)) : M unit :=
  match items with
  | [] => ret tt
  | (k, v) :: rest =>
      _ <- (if is_nil v then ret tt
            else (_ <- write_frame_to_file k v ;; set_buffer k [])) ;;
      flush_items rest
  end.

Definition end_file : M unit :=
  items <- reads buffers ;;
  _ <- flush_items items ;;
  file_call EndProcessing.

(** *** [start_aggregate] and [stop_aggregate]

    [start_aggregate] blocks in its loop; the other methods run while it
    sleeps at line 291. The local variables alive across the sleep: *)
Record Locals := mkLocals {
  ts : Q;
  time_per_file : PyVal;
  data_dir : PyVal;
}.

(** Lines 273-289, the branch taken when [new_file_time] holds;
    [now] is the reading of [datetime.utcnow()] at line 276. Returns [ts].
    [os.path.join] wants a string for [data_dir]. *)
Definition new_file (data_dir : PyVal) (now : Q) : M Q :=
  f <- reads file ;;
  _ <- (if f is Some _ then end_file else ret tt) ;;
  let ts := now in
  match data_dir with
  | PStr data_dir =>
      let sub_dir := sub_dir_path env data_dir ts in
      if dir_ready env sub_dir
      then (_ <- modify (with_filename (file_path env sub_dir now)) ;;
            _ <- start_file ;;
            ret ts)
      else raise OSError
  | _ => raise TypeError
  end.

(** From the call to the first sleep: [new_file_time] is [True] and the
    loop test sees the flag just set. *)
Definition start_aggregate_enter (params : option StartParams) (now : Q)
    : M Locals :=
  let params := default (mkStartParams None None None) params in
  let time_per_file := default (PNum 3600) (p_time_per_file params) in
  let time_per_frame := default (PNum 600) (p_time_per_frame params) in
  let data_dir := default (PStr "data/") (p_data_dir params) in
  _ <- modify (with_aggregate true) ;;
  ts <- new_file data_dir now ;;
  ret (mkLocals ts time_per_file data_dir).

(** From a wake-up to the next sleep ([inl], with the new locals) or to the
    return ([inr]); [now] is the reading at line 293, [now'] the one at
    line 276 when a new file is started. The comparison at line 293 wants a
    number for [time_per_file]. *)
Definition start_aggregate_resume (l : Locals) (now now' : Q)
    : M (Locals + bool * string) :=
  match time_per_file l with
  | PNum time_per_file =>
      let new_file_time := Qgtb (now - ts l) time_per_file in
      running <- reads aggregate ;;
      if running then
        if new_file_time
        then (ts' <- new_file (data_dir l) now' ;;
              ret (inl (mkLocals ts' (PNum time_per_file) (data_dir l))))
        else ret (inl l)
      else (_ <- end_file ;;
            ret (inr (true, "Acquisition exited cleanly.")))
  | _ => raise TypeError
  end.

Definition stop_aggregate : M (bool * string) :=
  _ <- modify (with_aggregate false) ;;
  ret (true, "Stopped aggregation").

(** *** The agent as a transition system *)

Inductive Proc :=
| Idle
| Sleeping (l : Locals).

Record Sys := mkSys {
  obj : State;
  proc : Proc;
}.

Inductive Event :=
| Start (params : option StartParams) (now : Q)
| Wake (now now' : Q)
| Stop
| Deliver (d : Delivery) (current_time : Q)
| AddFeedTask (params : option FeedParams)
| AddFeed (agent_address feed_name : string).

Inductive Outcome :=
| Returned
| Result (ok : bool) (msg : string)
| Raised (e : exn)
| NotRun.

Definition outcome_of {A} (f : A → Outcome) (r : Res A) : Outcome :=
  match r with Ok a _ => f a | Raise e _ => Raised e end.

Definition result_outcome (r : bool * string) : Outcome := Result r.1 r.2.

(** One event. The aggregate process is started only when it is not
    running (the agent framework refuses a second start), and an exception
    that leaves [start_aggregate] ends the process. An exception in a
    callback or a task goes to its caller and the agent lives on. *)
Definition step (s : Sys) (ev : Event) : Sys * Outcome :=
  match ev with
  | Start params now =>
      match proc s with
      | Sleeping _ => (s, NotRun)
      | Idle =>
          match start_aggregate_enter params now (obj s) with
          | Ok l st => (mkSys st (Sleeping l), Returned)
          | Raise e st => (mkSys st Idle, Raised e)
          end
      end
  | Wake now now' =>
      match proc s with
      | Idle => (s, NotRun)
      | Sleeping l =>
          match start_aggregate_resume l now now' (obj s) with
          | Ok (inl l') st => (mkSys st (Sleeping l'), Returned)
          | Ok (inr r) st => (mkSys st Idle, result_outcome r)
          | Raise e st => (mkSys st Idle, Raised e)
          end
      end
  | Stop =>
      let r := stop_aggregate (obj s) in
      (mkSys (final_state r) (proc s), outcome_of result_outcome r)
  | Deliver d current_time =>
      let r := _data_handler d current_time (obj s) in
      (mkSys (final_state r) (proc s), outcome_of (fun _ => Returned) r)
  | AddFeedTask params =>
      let r := add_feed_task params (obj s) in
      (mkSys (final_state r) (proc s), outcome_of result_outcome r)
  | AddFeed agent_address feed_name =>
      let r := add_feed agent_address feed_name (obj s) in
      (mkSys (final_state r) (proc s), outcome_of (fun _ => Returned) r)
  end.

Fixpoint run (s : Sys) (evs : list Event) : Sys * list Outcome :=
  match evs with
  | [] => (s, [])
  | ev :: evs' =>
      let '(s', o) := step s ev in
      let '(s'', os) := run s' evs' in
      (s'', o :: os)
  end.

Definition init_sys : Sys := mkSys init Idle.

(** The systems the agent can be in. *)
Inductive reachable : Sys → Prop :=
| reachable_init : reachable init_sys
| reachable_step s ev : reachable s → reachable (step s ev).1.
End Aggregator.

(** ** Vocabulary of the properties *)

(** The items of a buffer in arrival order, and for one key the sequence of
    its readings and of its timestamps in that order. *)
Definition items_of (buffer : list DataPoint) : list (string * (Q * Q)) :=
  concat buffer.

Definition column (f : Q * Q → Q) (key : string)
    (items : list (string * (Q * Q))) : list Q :=
  (fun it => f it.2) <$> filter (fun it => it.1 = key) items.

Definition readings_of (key : string) (buffer : list DataPoint) : list Q :=
  column snd key (items_of buffer).

Definition timestamps_of (key : string) (buffer : list DataPoint) : list Q :=
  column fst key (items_of buffer).

(** What [collect] has built after the items [seen]. *)
Definition grouped (seen : list (string * (Q * Q)))
    (acc : Dict (list Q) * Dict (list Q)) : Prop :=
  Dict.keys acc.1 = Dict.keys acc.2 ∧
  NoDup (Dict.keys acc.1) ∧
  (∀ k, k ∈ Dict.keys acc.1 ↔ k ∈ seen.*1) ∧
  (∀ k, k ∈ seen.*1 →
        Dict.get acc.1 k = Some (column snd k seen) ∧
        Dict.get acc.2 k = Some (column fst k seen)).

(** ** The serializer groups by key *)

Lemma column_snoc_same f key items val :
  column f key (items ++ [(key, val)]) = column f key items ++ [f val].
Proof.
  unfold column. rewrite filter_app, fmap_app. f_equal.
  rewrite filter_cons_True by done. done.
Qed.

Lemma column_snoc_other f key key' items val :
  key' ≠ key →
  column f key (items ++ [(key', val)]) = column f key items.
Proof.
  intros Hne. unfold column. rewrite filter_app, fmap_app.
  rewrite filter_cons_False by done. simpl. by rewrite app_nil_r.
Qed.

Lemma column_fresh f key items : key ∉ items.*1 → column f key items = [].
Proof.
  intros Hnin. unfold column.
  induction items as [|[k v] items IH]; [done|].
  simpl in Hnin. apply not_elem_of_cons in Hnin as [Hne Hnin].
  rewrite filter_cons_False by (simpl; congruence). auto.
Qed.

Lemma column_lengths key items :
  length (column snd key items) = length (column fst key items).
Proof. unfold column. by rewrite !length_fmap. Qed.

Lemma grouped_nil : grouped [] ([], []).
Proof.
  split_and!; simpl; [done | constructor | | ].
  - intros k. split; intros H; by apply elem_of_nil in H.
  - intros k H. by apply elem_of_nil in H.
Qed.

Lemma add_item_grouped seen acc item :
  grouped seen acc →
  ∃ acc', add_item (inr acc) item = inr acc' ∧ grouped (seen ++ [item]) acc'.
Proof.
  destruct acc as [tods timestamps], item as [key val].
  intros (Hkeys & Hnd & Hdom & Hget). simpl in *.
  unfold Dict.mem, append_at.
  destruct (Dict.get tods key) as [l|] eqn:Hl.
  - assert (Hin : key ∈ Dict.keys tods)
      by (apply Dict.get_is_Some_keys; rewrite Hl; eauto).
    pose proof Hin as Hseen. apply Hdom in Hseen.
    destruct (Hget key Hseen) as [Hv Ht]. rewrite Hl in Hv.
    injection Hv as ->. rewrite Ht.
    eexists. split; [done|].
    split_and!; simpl.
    + rewrite !Dict.keys_set_present; [done | by rewrite <- Hkeys | done].
    + by rewrite Dict.keys_set_present.
    + intros k. rewrite Dict.keys_set_present by done.
      rewrite fmap_app, elem_of_app, Hdom. simpl.
      split; [by left|]. intros [?|Hk]; [done|].
      apply list_elem_of_singleton in Hk. by subst.
    + intros k Hk. destruct (decide (key = k)) as [<-|Hne].
      * rewrite !Dict.get_set_eq, !column_snoc_same. done.
      * rewrite !Dict.get_set_ne by done.
        rewrite !column_snoc_other by done.
        apply Hget. rewrite fmap_app, elem_of_app in Hk.
        destruct Hk as [|Hk]; [done|].
        apply list_elem_of_singleton in Hk. simpl in Hk. congruence.
  - assert (Hnin : key ∉ Dict.keys tods) by by apply Dict.get_None_keys.
    assert (Hfresh : key ∉ seen.*1) by (by rewrite <- Hdom).
    eexists. split; [done|].
    split_and!; simpl.
    + rewrite !Dict.keys_set_absent; [by rewrite Hkeys | by rewrite <- Hkeys | done].
    + rewrite Dict.keys_set_absent by done.
      apply NoDup_app. split_and!; [done | | apply NoDup_singleton].
      intros k Hk Hk'. apply list_elem_of_singleton in Hk'. by subst.
    + intros k. rewrite Dict.keys_set_absent by done.
      rewrite fmap_app, !elem_of_app, Hdom. done.
    + intros k Hk. destruct (decide (key = k)) as [<-|Hne].
      * rewrite !Dict.get_set_eq, !column_snoc_same.
        by rewrite !column_fresh.
      * rewrite !Dict.get_set_ne by done.
        rewrite !column_snoc_other by done.
        apply Hget. rewrite fmap_app, elem_of_app in Hk.
        destruct Hk as [|Hk]; [done|].
        apply list_elem_of_singleton in Hk. simpl in Hk. congruence.
Qed.

Lemma foldl_add_item_grouped items seen acc :
  grouped seen acc →
  ∃ acc', foldl add_item (inr acc) items = inr acc' ∧
          grouped (seen ++ items) acc'.
Proof.
  revert seen acc. induction items as [|item items IH]; intros seen acc Hg.
  - exists acc. by rewrite app_nil_r.
  - destruct (add_item_grouped _ _ item Hg) as (acc1 & E1 & Hg1).
    destruct (IH _ _ Hg1) as (acc2 & E2 & Hg2).
    exists acc2. cbn [foldl]. rewrite E1, E2. split; [done|].
    by rewrite <- app_assoc in Hg2.
Qed.

Lemma collect_grouped_from buffer seen acc :
  grouped seen acc →
  ∃ acc', foldl (fun a data_point => foldl add_item a data_point)
                (inr acc) buffer = inr acc' ∧
          grouped (seen ++ items_of buffer) acc'.
Proof.
  revert seen acc. induction buffer as [|dp buffer IH]; intros seen acc Hg.
  - exists acc. unfold items_of. simpl. by rewrite app_nil_r.
  - destruct (foldl_add_item_grouped dp _ _ Hg) as (acc1 & E1 & Hg1).
    destruct (IH _ _ Hg1) as (acc2 & E2 & Hg2).
    exists acc2. cbn [foldl]. rewrite E1, E2. split; [done|].
    unfold items_of in *. simpl. by rewrite app_assoc.
Qed.

Lemma collect_grouped buffer :
  ∃ acc, collect buffer = inr acc ∧ grouped (items_of buffer) acc.
Proof. apply (collect_grouped_from buffer [] _ grouped_nil). Qed.

(** Copying the lists into the two maps of the frame changes nothing. *)
Lemma to_maps_from (d1 d2 e1 e2 : Dict (list Q)) :
  Dict.keys d1 = Dict.keys e1 →
  Dict.keys d2 = Dict.keys e2 →
  NoDup (Dict.keys (d1 ++ d2)) →
  foldl (add_stream (d1 ++ d2) (e1 ++ e2)) (inr (d1, e1)) (Dict.keys d2)
  = inr (d1 ++ d2, e1 ++ e2).
Proof.
  revert d1 e1 e2. induction d2 as [|[k v] d2 IH]; intros d1 e1 e2 H1 H2 Hnd.
  - destruct e2; [|done]. simpl. by rewrite !app_nil_r.
  - destruct e2 as [|[k' w] e2]; [done|]. simpl in H2.
    injection H2 as <- H2.
    assert (Hk : k ∉ Dict.keys d1).
    { rewrite Dict.keys_app in Hnd. apply NoDup_app in Hnd as (_ & Hd & _).
      intros Hin. apply (Hd _ Hin). simpl. apply list_elem_of_here. }
    assert (Hk' : k ∉ Dict.keys e1) by (by rewrite <- H1).
    cbn [Dict.keys fmap list_fmap fst foldl]. unfold add_stream at 2.
    rewrite !Dict.get_app_fresh by done. simpl.
    rewrite !decide_True by done.
    rewrite !Dict.set_fresh by done.
    replace (d1 ++ (k, v) :: d2) with ((d1 ++ [(k, v)]) ++ d2)
      by (by rewrite <- app_assoc).
    replace (e1 ++ (k, w) :: e2) with ((e1 ++ [(k, w)]) ++ e2)
      by (by rewrite <- app_assoc).
    apply IH.
    + rewrite !Dict.keys_app. simpl. by rewrite H1.
    + done.
    + by rewrite <- app_assoc.
Qed.

Lemma to_maps_id (tods timestamps : Dict (list Q)) :
  Dict.keys tods = Dict.keys timestamps →
  NoDup (Dict.keys tods) →
  to_maps tods timestamps = inr (tods, timestamps).
Proof.
  intros Hk Hnd. unfold to_maps.
  apply (to_maps_from [] tods [] timestamps); done.
Qed.

(** The frame of a buffer, whenever the address splits in two. *)
Lemma make_frame_spec feed_address agent_address feed buffer :
  split_address feed_address = inr (agent_address, feed) →
  ∃ tods timestamps,
    make_frame feed_address buffer
    = inr (Housekeeping agent_address feed tods timestamps) ∧
    grouped (items_of buffer) (tods, timestamps).
Proof.
  intros Hs. unfold make_frame. rewrite Hs.
  destruct (collect_grouped buffer) as ([tods timestamps] & -> & Hg).
  exists tods, timestamps.
  pose proof Hg as (Hk & Hnd & _). simpl in Hk, Hnd.
  by rewrite to_maps_id.
Qed.

(** [make_frame] fails on the address only. *)
Lemma make_frame_error feed_address buffer e :
  make_frame feed_address buffer = inl e →
  e = ValueError ∧ split_address feed_address = inl ValueError.
Proof.
  destruct (split_address feed_address) as [e'|[a f]] eqn:Hs.
  - unfold make_frame. rewrite Hs. intros [= <-].
    unfold split_address in Hs. revert Hs.
    repeat case_match; intros [= <-]; done.
  - destruct (make_frame_spec _ _ _ buffer Hs) as (? & ? & -> & _). done.
Qed.

(** ** Relations between the state before and after a computation *)

Definition preserves {A} (R : relation State) (m : M A) : Prop :=
  ∀ st, R st (final_state (m st)).

Lemma preserves_ret {A} (R : relation State) `{!Reflexive R} (a : A) :
  preserves R (ret a).
Proof. intros st. simpl. reflexivity. Qed.

Lemma preserves_raise {A} (R : relation State) `{!Reflexive R} e :
  preserves R (raise (A := A) e).
Proof. intros st. simpl. reflexivity. Qed.

Lemma preserves_reads {A} (R : relation State) `{!Reflexive R}
    (f : State → A) :
  preserves R (reads f).
Proof. intros st. simpl. reflexivity. Qed.

Lemma preserves_lift {A} (R : relation State) `{!Reflexive R}
    (r : exn + A) :
  preserves R (lift r).
Proof. intros st. unfold lift. destruct r; simpl; reflexivity. Qed.

Lemma preserves_bind {A B} (R : relation State) `{!Transitive R}
    (m : M A) (k : A → M B) :
  preserves R m → (∀ a, preserves R (k a)) → preserves R (bind m k).
Proof.
  intros Hm Hk st. unfold bind. specialize (Hm st).
  destruct (m st) as [a st'|e st']; simpl in *; [|done].
  etrans; [done | apply Hk].
Qed.

Lemma bind_related {A B} (R : relation State) `{!Transitive R}
    (m : M A) (k : A → M B) st :
  R st (final_state (m st)) → (∀ a, preserves R (k a)) →
  R st (final_state (bind m k st)).
Proof.
  intros Hm Hk. unfold bind.
  destruct (m st) as [a st'|e st']; simpl in *; [|done].
  etrans; [done | apply Hk].
Qed.

Lemma preserves_modify (R : relation State) (f : State → State) :
  (∀ st, R st (f st)) → preserves R (modify f).
Proof. intros H st. apply H. Qed.

(** [quiet st st']: from [st] to [st'] no subscription was made, no start
    time was touched, the buffer map has the same keys, and every buffer is
    as it was or has been emptied. *)
Definition quiet (st st' : State) : Prop :=
  subscribed_feeds st' = subscribed_feeds st ∧
  registrations st' = registrations st ∧
  buffer_start_times st' = buffer_start_times st ∧
  Dict.keys (buffers st') = Dict.keys (buffers st) ∧
  (∀ a b, Dict.get (buffers st') a = Some b →
          b = [] ∨ Dict.get (buffers st) a = Some b).

#[local] Instance quiet_refl : Reflexive quiet.
Proof. intros st. split_and!; auto. Qed.

#[local] Instance quiet_trans : Transitive quiet.
Proof.
  intros st1 st2 st3 (S1 & R1 & T1 & K1 & B1) (S2 & R2 & T2 & K2 & B2).
  split_and!; try congruence.
  intros a b Hb. destruct (B2 a b Hb) as [|Hb2]; auto.
Qed.

(** [calls_nonempty st st']: the serializer calls made from [st] to [st']
    all passed a sample list that is not empty. *)
Definition calls_nonempty (st st' : State) : Prop :=
  ∃ new, serializer_calls st' = serializer_calls st ++ new ∧
         Forall (fun c => c.2 ≠ []) new.

#[local] Instance calls_nonempty_refl : Reflexive calls_nonempty.
Proof. intros st. exists []. by rewrite app_nil_r. Qed.

#[local] Instance calls_nonempty_trans : Transitive calls_nonempty.
Proof.
  intros st1 st2 st3 (n1 & E1 & F1) (n2 & E2 & F2).
  exists (n1 ++ n2). rewrite E2, E1, app_assoc. split; [done|].
  by apply Forall_app.
Qed.

(** A dictionary of buffers with every buffer emptied. *)
Definition emptied (d : Dict (list DataPoint)) : Dict (list DataPoint) :=
  (fun kv => (kv.1, [])) <$> d.


(** *** Samples, for the accounting of what is delivered and recorded *)

(** A sample with its feed address: [(address, key, timestamp, reading)]. *)
Definition Sample : Type := string * string * Q * Q.

Definition tag (feed_address : string) (it : string * (Q * Q)) : Sample :=
  (feed_address, it.1, it.2.1, it.2.2).

Definition samples_of (feed_address : string) (buffer : list DataPoint)
    : list Sample :=
  tag feed_address <$> items_of buffer.

(** The samples a frame holds: under each key the timestamps paired with the
    readings, with the address put together again from the frame's tags. *)
Definition frame_samples (frame : Frame) : list Sample :=
  match frame with
  | Housekeeping agent_address feed tods timestamps =>
      tods ≫= (fun kv =>
        (fun tv => (feed_address_of agent_address feed, kv.1, tv.1, tv.2))
        <$> zip (default [] (Dict.get timestamps kv.1)) kv.2)
  | EndProcessing => []
  end.

Definition writer_samples (w : Writer) : list Sample :=
  w_frames w ≫= frame_samples.

(** Everything in the files, those no longer written to and the open one. *)
Definition recorded (st : State) : list Sample :=
  (released st ++ option_list (file st)) ≫= writer_samples.

Definition pending_in (d : Dict (list DataPoint)) : list Sample :=
  d ≫= (fun kv => samples_of kv.1 kv.2).

(** Everything in the buffers. *)
Definition pending (st : State) : list Sample := pending_in (buffers st).




Section Accounting.
Variable env : Env.

End Accounting.

(** ** Invariants *)

(** Every subscribed feed has a buffer. *)
Definition registry_consistent (st : State) : Prop :=
  ∀ a, a ∈ subscribed_feeds st → a ∈ Dict.keys (buffers st).

(** A buffer that holds samples has a start time. *)
Definition start_times_known (st : State) : Prop :=
  ∀ a b, Dict.get (buffers st) a = Some b → b ≠ [] →
         is_Some (buffer_start_times st !! a).

Definition registered_addresses (st : State) : list string :=
  (fun r => feed_address_of r.1 r.2) <$> registrations st.

(** The buffer map has exactly the subscribed feeds as keys, in the order
    of subscription, each once and each registered with the agent. *)
Definition wf (st : State) : Prop :=
  Dict.keys (buffers st) = subscribed_feeds st ∧
  start_times_known st ∧
  NoDup (subscribed_feeds st) ∧
  registered_addresses st = subscribed_feeds st.

Lemma wf_NoDup_keys st : wf st → NoDup (Dict.keys (buffers st)).
Proof. intros (H1 & _ & H3 & _). by rewrite H1. Qed.

Lemma quiet_wf st st' : quiet st st' → wf st → wf st'.
Proof.
  intros (S & R & T & K & B) (H1 & H2 & H3 & H5).
  split_and!.
  - by rewrite K, S.
  - intros a b Hb Hne. rewrite T. destruct (B a b Hb) as [|Hb']; [done|].
    by apply (H2 a b).
  - by rewrite S.
  - unfold registered_addresses. by rewrite R, S.
Qed.

Lemma quiet_registry_consistent st st' :
  quiet st st' → registry_consistent st → registry_consistent st'.
Proof. intros (S & _ & _ & K & _) H a. rewrite S, K. auto. Qed.

Lemma init_wf : wf init.
Proof. split_and!; simpl; try done; constructor. Qed.

(** ** A frame holds the samples of its buffer *)

Lemma zip_fmap_same {A B C} (f : A → B) (g : A → C) (l : list A) :
  zip (f <$> l) (g <$> l) = (fun x => (f x, g x)) <$> l.
Proof. induction l as [|x l IH]; [done|]. csimpl. f_equal. exact IH. Qed.

Lemma filter_key_other (items : list (string * (Q * Q))) k k' :
  k' ≠ k →
  filter (fun it => it.1 = k') (filter (fun it => ¬ it.1 = k) items)
  = filter (fun it => it.1 = k') items.
Proof.
  intros Hne. rewrite list_filter_filter. apply list_filter_iff.
  intros it. split; [by intros [? _] | intros ->; done].
Qed.

(** Collecting the items key by key, over keys without repetition that
    cover them, permutes the items. *)
Lemma group_by_key_perm {B} (h : string * (Q * Q) → B) ks items :
  NoDup ks →
  (∀ it, it ∈ items → it.1 ∈ ks) →
  ks ≫= (fun k => h <$> filter (fun it => it.1 = k) items) ≡ₚ h <$> items.
Proof.
  revert items. induction ks as [|k ks IH]; intros items Hnd Hcov.
  - destruct items as [|it items]; [done|].
    specialize (Hcov it (list_elem_of_here _ _)). by apply elem_of_nil in Hcov.
  - apply NoDup_cons in Hnd as [Hk Hnd]. rewrite bind_cons.
    set (items' := filter (fun it => ¬ it.1 = k) items).
    assert (Hext : ks ≫= (fun k' => h <$> filter (fun it => it.1 = k') items)
                 = ks ≫= (fun k' => h <$> filter (fun it => it.1 = k') items')).
    { apply Forall_bind_ext, Forall_forall. intros k' Hk'.
      subst items'. rewrite filter_key_other; [done|].
      intros ->. done. }
    rewrite Hext, (IH items' Hnd).
    + rewrite <- fmap_app. apply fmap_Permutation.
      apply (filter_app_complement (fun it => it.1 = k)).
    + intros it [Hne Hin]%list_elem_of_filter.
      specialize (Hcov it Hin). apply elem_of_cons in Hcov as [|]; done.
Qed.

Lemma frame_samples_grouped agent_address feed tods timestamps items :
  grouped items (tods, timestamps) →
  frame_samples (Housekeeping agent_address feed tods timestamps)
  ≡ₚ tag (feed_address_of agent_address feed) <$> items.
Proof.
  intros (Hk & Hnd & Hdom & Hget). simpl in *.
  set (a := feed_address_of agent_address feed).
  set (G := fun k => tag a <$> filter (fun it => it.1 = k) items).
  assert (HF : Forall (fun kv =>
      ((fun tv => (a, kv.1, tv.1, tv.2))
       <$> zip (default [] (Dict.get timestamps kv.1)) kv.2)
      = (G ∘ fst) kv) tods).
  { apply Forall_forall. intros [k vs] Hin. simpl.
    assert (Hkin : k ∈ Dict.keys tods).
    { apply list_elem_of_fmap. by exists (k, vs). }
    destruct (Hget k (proj1 (Hdom k) Hkin)) as [Hv Ht].
    rewrite (Dict.get_NoDup_elem tods k vs Hnd Hin) in Hv.
    injection Hv as ->. rewrite Ht. simpl.
    unfold column. rewrite zip_fmap_same, <- list_fmap_compose.
    subst G. simpl. apply list_fmap_ext.
    intros i it Hit. apply list_elem_of_lookup_2 in Hit.
    apply list_elem_of_filter in Hit as [<- _]. done. }
  rewrite (Forall_bind_ext _ _ _ HF), <- list_fmap_bind.
  apply group_by_key_perm; [done|].
  intros it Hin. apply Hdom. apply list_elem_of_fmap. by exists it.
Qed.

Lemma frame_samples_make_frame feed_address buffer frame :
  make_frame feed_address buffer = inr frame →
  frame_samples frame ≡ₚ samples_of feed_address buffer.
Proof.
  intros Hf. destruct (split_address feed_address) as [e|[a f]] eqn:Hs.
  { unfold make_frame in Hf. by rewrite Hs in Hf. }
  destruct (make_frame_spec _ _ _ buffer Hs) as (tods & tss & Hf' & Hg).
  rewrite Hf in Hf'. injection Hf' as ->.
  rewrite (split_address_join _ _ _ Hs). by apply frame_samples_grouped.
Qed.

(** ** Properties of the methods *)

Section Properties.
Variable env : Env.

Ltac unfold_monad :=
  unfold bind, ret, raise, modify, reads, lift in *.

Ltac red_state :=
  cbn [final_state raised subscribed_feeds buffers buffer_start_times
       aggregate filename file registrations released serializer_calls
       with_buffers with_start_times with_aggregate with_filename with_file
       with_released with_call with_subscription] in *.

(** The two ways a call of the serializer can end: it raises, with nothing
    but the call recorded, or it returns, with one frame more in the file. *)
Lemma write_frame_to_file_unfold feed_address buffer st :
  write_frame_to_file env feed_address buffer st
  = match make_frame feed_address buffer with
    | inl e => Raise e (with_call (feed_address, buffer) st)
    | inr frame => file_call env frame (with_call (feed_address, buffer) st)
    end.
Proof.
  unfold write_frame_to_file. unfold_monad.
  by destruct (make_frame feed_address buffer).
Qed.

Lemma write_frame_to_file_cases feed_address buffer st :
  let st0 := with_call (feed_address, buffer) st in
  (∃ e, write_frame_to_file env feed_address buffer st = Raise e st0 ∧
        ∀ k, e ≠ KeyError k) ∨
  (∃ w frame,
      file st = Some w ∧ make_frame feed_address buffer = inr frame ∧
      sink_accepts env w frame = true ∧
      write_frame_to_file env feed_address buffer st
      = Ok tt (with_file
                 (Some (mkWriter (w_filename w) (w_frames w ++ [frame]))) st0)).
Proof.
  intros st0. rewrite write_frame_to_file_unfold.
  destruct (make_frame feed_address buffer) as [e|frame] eqn:Hf.
  - left. exists e. split; [done|].
    apply make_frame_error in Hf as [-> _]. done.
  - unfold file_call. fold st0. simpl.
    destruct (file st) as [w|] eqn:Hw.
    + destruct (sink_accepts env w frame) eqn:Hs.
      * right. by exists w, frame.
      * left. by exists OSError.
    + left. by exists TypeError.
Qed.

(** What a call of the serializer does when the address splits in two, a
    file is open and the writer accepts the frame. *)
Lemma write_frame_to_file_spec
    feed_address agent_address feed buffer st w :
  split_address feed_address = inr (agent_address, feed) →
  file st = Some w →
  (∀ frame, sink_accepts env w frame = true) →
  ∃ tods timestamps,
    write_frame_to_file env feed_address buffer st
    = Ok tt (with_file
               (Some (mkWriter (w_filename w)
                        (w_frames w ++
                         [Housekeeping agent_address feed tods timestamps])))
               (with_call (feed_address, buffer) st)) ∧
    grouped (items_of buffer) (tods, timestamps).
Proof.
  intros Hs Hw Hsink.
  destruct (make_frame_spec _ _ _ buffer Hs)
    as (tods & timestamps & Hf & Hg).
  exists tods, timestamps. split; [|done].
  rewrite write_frame_to_file_unfold, Hf. unfold file_call. simpl.
  by rewrite Hw, Hsink.
Qed.

(** C5 (amended) — frame serialization: for every feed address that
    [split(".feeds.")] cuts into exactly two pieces and every sample list,
    with a file open and a writer that accepts the frame, the serializer
    appends exactly one housekeeping frame to the file, tagged with the two
    pieces of the address; its two maps have the same keys, each once, namely
    the keys that occur in the samples, and under each key the readings and
    the timestamps of that key's samples, in arrival order and of equal
    length. *)
Theorem write_frame_groups_by_key
    feed_address agent_address feed buffer st w :
  split_address feed_address = inr (agent_address, feed) →
  file st = Some w →
  (∀ frame, sink_accepts env w frame = true) →
  ∃ tods timestamps,
    write_frame_to_file env feed_address buffer st
    = Ok tt (with_file
               (Some (mkWriter (w_filename w)
                        (w_frames w ++
                         [Housekeeping agent_address feed tods timestamps])))
               (with_call (feed_address, buffer) st)) ∧
    Dict.keys tods = Dict.keys timestamps ∧
    NoDup (Dict.keys tods) ∧
    (∀ key, key ∈ Dict.keys tods ↔ key ∈ (items_of buffer).*1) ∧
    (∀ key, key ∈ Dict.keys tods →
       Dict.get tods key = Some (readings_of key buffer) ∧
       Dict.get timestamps key = Some (timestamps_of key buffer) ∧
       length (readings_of key buffer) = length (timestamps_of key buffer)).
Proof.
  intros Hs Hw Hsink.
  destruct (write_frame_to_file_spec _ _ _ buffer _ _ Hs Hw Hsink)
    as (tods & timestamps & Hok & Hk & Hnd & Hdom & Hget).
  exists tods, timestamps. simpl in Hk, Hnd, Hdom, Hget.
  split_and!; try done.
  intros key Hin. apply Hdom in Hin.
  destruct (Hget key Hin) as [Hv Ht].
  unfold readings_of, timestamps_of. split_and!; [done | done |].
  apply column_lengths.
Qed.

(** The handler on a batch from a buffered feed is the serializer call. *)
Lemma data_handler_buffered data feed current_time st :
  aggregate st = true →
  _data_handler env (Buffered data feed) current_time st
  = write_frame_to_file env (address feed) data st.
Proof.
  intros Hrun. unfold _data_handler. unfold_monad. by rewrite Hrun.
Qed.

(** C3 — self-buffered passthrough: while the engine is running, the
    handler of a delivery from a buffered feed is exactly one call of the
    serializer on the delivered batch; whether that call returns or raises,
    the per-feed buffers and buffer start times are left as they were, and
    neither the feed's buffer_time nor the arrival time plays any part. With
    a file open, an address that splits in two and a writer that accepts the
    frame, the batch ends up as one more frame of the file. *)
Theorem buffered_feed_passthrough data feed current_time st :
  aggregate st = true →
  let r := _data_handler env (Buffered data feed) current_time st in
  r = write_frame_to_file env (address feed) data st ∧
  buffers (final_state r) = buffers st ∧
  buffer_start_times (final_state r) = buffer_start_times st ∧
  serializer_calls (final_state r)
  = serializer_calls st ++ [(address feed, data)] ∧
  (∀ buffer_time' current_time',
      _data_handler env
        (Buffered data (mkFeed (address feed) buffer_time')) current_time' st
      = r) ∧
  (∀ w agent_address feed_name,
      file st = Some w →
      split_address (address feed) = inr (agent_address, feed_name) →
      (∀ frame, sink_accepts env w frame = true) →
      ∃ tods timestamps,
        raised r = false ∧
        file (final_state r)
        = Some (mkWriter (w_filename w)
                  (w_frames w ++
                   [Housekeeping agent_address feed_name tods timestamps])) ∧
        (∀ key, key ∈ (items_of data).*1 →
           Dict.get tods key = Some (readings_of key data) ∧
           Dict.get timestamps key = Some (timestamps_of key data))).
Proof.
  intros Hrun r.
  assert (Hr : r = write_frame_to_file env (address feed) data st).
  { subst r. unfold _data_handler. unfold_monad. by rewrite Hrun. }
  split; [done|].
  assert (Hany : ∀ T t,
    _data_handler env (Buffered data (mkFeed (address feed) T)) t st = r).
  { intros T t. rewrite Hr. unfold _data_handler. unfold_monad.
    by rewrite Hrun. }
  clearbody r. subst r.
  destruct (write_frame_to_file_cases (address feed) data st)
    as [(e & He & _)|(w & frame & Hw & Hf & Hs & Hok)].
  - rewrite He in Hany |- *. simpl. split_and!; try done.
    intros w a f Hw Hsp Hsink.
    destruct (write_frame_to_file_spec _ _ _ data _ _ Hsp Hw Hsink)
      as (? & ? & Hok & _). congruence.
  - rewrite Hok in Hany |- *. simpl. split_and!; try done.
    intros w' a f Hw' Hsp Hsink.
    destruct (write_frame_to_file_spec _ _ _ data _ _ Hsp Hw' Hsink)
      as (tods & timestamps & Hok' & _ & _ & _ & Hget).
    exists tods, timestamps. rewrite Hok in Hok'.
    apply (f_equal (fun r => file (final_state r))) in Hok'. simpl in Hok'.
    split_and!; [done | done | ].
    + intros key Hin. by destruct (Hget key Hin).
Qed.

Lemma Qgtb_true x y : Qgtb x y = true ↔ (y < x)%Q.
Proof.
  unfold Qgtb. rewrite negb_true_iff.
  destruct (Qle_bool x y) eqn:E.
  - apply Qle_bool_iff in E. split; [done|].
    intros H. by apply Qlt_not_le in H.
  - split; [intros _|done]. apply Qnot_le_lt. intros H.
    apply Qle_bool_iff in H. congruence.
Qed.


(** What the serializer leaves alone. *)
Lemma write_frame_to_file_frame feed_address buffer st :
  let st' := final_state (write_frame_to_file env feed_address buffer st) in
  buffers st' = buffers st ∧
  buffer_start_times st' = buffer_start_times st ∧
  aggregate st' = aggregate st ∧
  subscribed_feeds st' = subscribed_feeds st ∧
  registrations st' = registrations st ∧
  released st' = released st ∧
  filename st' = filename st ∧
  serializer_calls st' = serializer_calls st ++ [(feed_address, buffer)].
Proof.
  destruct (write_frame_to_file_cases feed_address buffer st)
    as [(e & -> & _)|(w & frame & _ & _ & _ & ->)]; simpl; done.
Qed.

(** The handler on a delivery from a feed that is not buffered, line by
    line. *)
Lemma data_handler_unbuffered data feed current_time st :
  aggregate st = true →
  let addr := address feed in
  _data_handler env (Unbuffered data feed) current_time st
  = match Dict.get (buffers st) addr with
    | None => Raise (KeyError addr) st
    | Some b =>
        let st1 :=
          if is_nil b
          then with_start_times (<[addr := current_time]> (buffer_start_times st)) st
          else st in
        match buffer_start_times st1 !! addr with
        | None => Raise (KeyError addr) st1
        | Some t0 =>
            if Qgtb (current_time - t0) (buffer_time feed)
            then
              match write_frame_to_file env addr b st1 with
              | Raise e st2 => Raise e st2
              | Ok _ st2 =>
                  Ok tt (with_buffers
                           (Dict.set (Dict.set (buffers st2) addr []) addr [data])
                           (with_start_times
                              (<[addr := current_time]> (buffer_start_times st2))
                              st2))
              end
            else Ok tt (with_buffers (Dict.set (buffers st1) addr (b ++ [data])) st1)
        end
    end.
Proof.
  intros Hrun addr. unfold _data_handler. fold addr.
  etrans; [apply bind_Ok; reflexivity|]. rewrite Hrun. cbn [negb].
  destruct (Dict.get (buffers st) addr) as [b|] eqn:Hb.
  2: { apply bind_Raise. unfold buffer_at. by rewrite Hb. }
  etrans; [apply (bind_Ok _ _ st b st); unfold buffer_at; by rewrite Hb|].
  set (st1 := if is_nil b then _ else st).
  assert (Hb1 : buffer_at addr st1 = Ok b st1).
  { unfold buffer_at. subst st1. destruct b; simpl; by rewrite Hb. }
  etrans; [apply (bind_Ok _ _ st tt st1); subst st1; by destruct b|].
  destruct (buffer_start_times st1 !! addr) as [t0|] eqn:Ht.
  2: { apply bind_Raise. unfold start_time_at. by rewrite Ht. }
  etrans; [apply (bind_Ok _ _ st1 t0 st1); unfold start_time_at; by rewrite Ht|].
  destruct (Qgtb (current_time - t0) (buffer_time feed)).
  - pose proof (write_frame_to_file_frame addr b st1) as (Hbuf & _).
    destruct (write_frame_to_file env addr b st1) as [[] st2|e st2] eqn:Hw.
    + etrans.
      { apply bind_Ok.
        etrans; [apply bind_Ok; exact Hb1|].
        etrans; [apply bind_Ok; exact Hw|].
        etrans; [apply bind_Ok; reflexivity|]. reflexivity. }
      etrans.
      { apply bind_Ok. unfold buffer_at. cbn [buffers with_buffers].
        by rewrite Dict.get_set_eq. }
      reflexivity.
    + apply bind_Raise.
      etrans; [apply bind_Ok; exact Hb1|].
      apply bind_Raise. exact Hw.
  - etrans; [apply bind_Ok; reflexivity|].
    etrans; [apply bind_Ok; exact Hb1|]. reflexivity.
Qed.


(** *** The quiet methods *)

Lemma file_call_quiet frame : preserves quiet (file_call env frame).
Proof.
  intros st. unfold file_call.
  destruct (file st) as [w|]; [|reflexivity].
  destruct (sink_accepts env w frame); [|reflexivity].
  simpl. split_and!; auto.
Qed.

Lemma write_frame_to_file_quiet feed_address buffer :
  preserves quiet (write_frame_to_file env feed_address buffer).
Proof.
  intros st.
  pose proof (write_frame_to_file_frame feed_address buffer st)
    as (Hb & Ht & _ & Hs & Hr & _).
  split_and!; try done.
  - by rewrite Hb.
  - intros a b. rewrite Hb. auto.
Qed.

Lemma set_buffer_nil_quiet k st :
  k ∈ Dict.keys (buffers st) → quiet st (final_state (set_buffer k [] st)).
Proof.
  intros Hk. unfold set_buffer, modify, quiet. red_state.
  split_and!; try done.
  - by apply Dict.keys_set_present.
  - intros a b. rewrite Dict.get_set. case_decide; [|auto].
    intros [= <-]. by left.
Qed.

Lemma flush_items_quiet items st :
  (∀ k, k ∈ Dict.keys items → k ∈ Dict.keys (buffers st)) →
  quiet st (final_state (flush_items env items st)).
Proof.
  revert st. induction items as [|[k v] items IH]; intros st Hk.
  - reflexivity.
  - cbn [flush_items].
    set (m := if is_nil v then _ else _).
    assert (Hm : quiet st (final_state (m st))).
    { subst m. destruct (is_nil v); [reflexivity|].
      pose proof (write_frame_to_file_quiet k v st) as Hq.
      unfold bind.
      destruct (write_frame_to_file env k v st) as [[] st1|e st1]; [|done].
      etrans; [done|]. apply set_buffer_nil_quiet.
      destruct Hq as (_ & _ & _ & HK & _). red_state. rewrite HK.
      apply Hk. apply list_elem_of_here. }
    unfold bind. destruct (m st) as [[] st1|e st1]; [|done].
    etrans; [done|]. apply IH. intros k' Hk'.
    destruct Hm as (_ & _ & _ & HK & _). red_state. rewrite HK.
    apply Hk. by apply list_elem_of_further.
Qed.

Lemma end_file_quiet : preserves quiet (end_file env).
Proof.
  unfold end_file. intros st. unfold bind at 1. unfold reads.
  red_state.
  pose proof (flush_items_quiet (buffers st) st ltac:(done)) as Hq.
  unfold bind.
  destruct (flush_items env (buffers st) st) as [[] st1|e st1]; [|done].
  etrans; [done|]. apply file_call_quiet.
Qed.

Lemma start_file_quiet : preserves quiet (start_file env).
Proof.
  intros st. unfold start_file.
  destruct (writer_opens env (filename st)); [|reflexivity].
  simpl. split_and!; auto.
Qed.

Lemma new_file_quiet data_dir now : preserves quiet (new_file env data_dir now).
Proof.
  unfold new_file.
  apply preserves_bind; [apply _ | apply preserves_reads, _ |].
  intros f. apply preserves_bind; [apply _ | |].
  - destruct f; [apply end_file_quiet | apply preserves_ret, _].
  - intros _. destruct data_dir as [| |d]; try apply preserves_raise, _.
    destruct (dir_ready env _); [|apply preserves_raise, _].
    apply preserves_bind; [apply _ | |].
    + apply preserves_modify. intros st. split_and!; auto.
    + intros _. apply preserves_bind; [apply _ | apply start_file_quiet |].
      intros _. apply preserves_ret, _.
Qed.

Lemma start_aggregate_enter_quiet params now :
  preserves quiet (start_aggregate_enter env params now).
Proof.
  unfold start_aggregate_enter.
  apply preserves_bind; [apply _ | |].
  - apply preserves_modify. intros st. split_and!; auto.
  - intros _. apply preserves_bind; [apply _ | apply new_file_quiet |].
    intros ?. apply preserves_ret, _.
Qed.

Lemma start_aggregate_resume_quiet l now now' :
  preserves quiet (start_aggregate_resume env l now now').
Proof.
  unfold start_aggregate_resume.
  destruct (time_per_file l); try apply preserves_raise, _.
  apply preserves_bind; [apply _ | apply preserves_reads, _ |].
  intros running. destruct running.
  - destruct (Qgtb _ _); [|apply preserves_ret, _].
    apply preserves_bind; [apply _ | apply new_file_quiet |].
    intros ?. apply preserves_ret, _.
  - apply preserves_bind; [apply _ | apply end_file_quiet |].
    intros ?. apply preserves_ret, _.
Qed.

Lemma stop_aggregate_quiet : preserves quiet stop_aggregate.
Proof.
  unfold stop_aggregate.
  apply preserves_bind; [apply _ | |].
  - apply preserves_modify. intros st. split_and!; auto.
  - intros _. apply preserves_ret, _.
Qed.

Lemma data_handler_buffered_quiet data feed current_time :
  preserves quiet (_data_handler env (Buffered data feed) current_time).
Proof.
  unfold _data_handler.
  apply preserves_bind; [apply _ | apply preserves_reads, _ |].
  intros running. destruct running; simpl.
  - apply write_frame_to_file_quiet.
  - apply preserves_ret, _.
Qed.

(** *** The handler of a feed that is not buffered, and [add_feed] *)

Lemma with_start_times_wf st a t :
  wf st → wf (with_start_times (<[a := t]> (buffer_start_times st)) st).
Proof.
  intros (H1 & H2 & H3 & H5). split_and!; try done.
  intros a' b Hb Hne. red_state.
  destruct (decide (a = a')) as [<-|Hna].
  - rewrite lookup_insert_eq. eauto.
  - rewrite lookup_insert_ne by done. by apply (H2 a' b).
Qed.

Lemma with_buffers_set_wf st a b :
  wf st →
  a ∈ Dict.keys (buffers st) →
  (b ≠ [] → is_Some (buffer_start_times st !! a)) →
  wf (with_buffers (Dict.set (buffers st) a b) st).
Proof.
  intros (H1 & H2 & H3 & H5) Hin Hb. split_and!; try done.
  - red_state. by rewrite Dict.keys_set_present.
  - intros a' b'. red_state. rewrite Dict.get_set. case_decide.
    + intros [= <-]. by subst.
    + apply H2.
Qed.

Lemma data_handler_wf d current_time st :
  wf st → wf (final_state (_data_handler env d current_time st)).
Proof.
  intros Hwf. destruct (aggregate st) eqn:Hrun.
  2: { unfold _data_handler. unfold_monad. by rewrite Hrun. }
  destruct d as [data feed|data feed].
  { eapply quiet_wf; [apply data_handler_buffered_quiet | done]. }
  rewrite data_handler_unbuffered by done. cbv zeta.
  set (addr := address feed).
  destruct (Dict.get (buffers st) addr) as [b|] eqn:Hb; [|done].
  set (st1 := if is_nil b then _ else st).
  assert (Hwf1 : wf st1).
  { subst st1. destruct b; [by apply with_start_times_wf | done]. }
  assert (Hb1 : buffers st1 = buffers st) by (subst st1; by destruct b).
  assert (Hin : addr ∈ Dict.keys (buffers st))
    by (apply Dict.get_is_Some_keys; rewrite Hb; eauto).
  destruct (buffer_start_times st1 !! addr) as [t0|] eqn:Ht; [|done].
  destruct (Qgtb _ _).
  - pose proof (write_frame_to_file_quiet addr b st1) as Hq.
    pose proof (quiet_wf _ _ Hq Hwf1) as Hwf2.
    destruct Hq as (_ & _ & _ & Hk & _).
    destruct (write_frame_to_file env addr b st1) as [[] st2|e st2];
      [|done].
    red_state.
    assert (Hin2 : addr ∈ Dict.keys (buffers st2))
      by (by rewrite Hk, Hb1).
    pose proof (with_start_times_wf st2 addr current_time Hwf2) as Hwf3.
    pose proof (with_buffers_set_wf _ addr [] Hwf3) as Hwf4.
    red_state. specialize (Hwf4 Hin2 ltac:(done)).
    pose proof (with_buffers_set_wf _ addr [data] Hwf4) as Hwf5.
    red_state. apply Hwf5.
    + by apply Dict.keys_set_mono.
    + intros _. rewrite lookup_insert_eq. eauto.
  - red_state. apply with_buffers_set_wf; [done | by rewrite Hb1 | eauto].
Qed.

Lemma add_feed_unfold agent_address feed_name st :
  let feed_address := feed_address_of agent_address feed_name in
  add_feed agent_address feed_name st
  = if bool_decide (feed_address ∈ subscribed_feeds st) then Ok tt st
    else Ok tt (with_buffers
                  (Dict.set (buffers st) feed_address [])
                  (with_subscription agent_address feed_name feed_address st)).
Proof.
  unfold add_feed. unfold_monad. cbv zeta.
  by destruct (bool_decide _).
Qed.

Lemma add_feed_wf agent_address feed_name st :
  wf st → wf (final_state (add_feed agent_address feed_name st)).
Proof.
  intros (H1 & H2 & H3 & H5). rewrite add_feed_unfold. cbv zeta.
  case_bool_decide as Hin; [done|]. red_state.
  set (a := feed_address_of agent_address feed_name) in *.
  split_and!; unfold start_times_known; red_state.
  - rewrite Dict.keys_set_absent by (by rewrite H1). by rewrite H1.
  - intros a' b. rewrite Dict.get_set. case_decide.
    + by intros [= <-].
    + apply H2.
  - apply NoDup_app. split_and!; [done | | apply NoDup_singleton].
    intros x Hx Hx'. apply list_elem_of_singleton in Hx'. by subst.
  - unfold registered_addresses in *. red_state.
    rewrite fmap_app. simpl. by rewrite H5.
Qed.

Lemma add_feed_task_unfold params st :
  add_feed_task params st
  = match p_agent_address (default (mkFeedParams None None) params) with
    | None => Raise (KeyError "agent_address") st
    | Some agent_address =>
        match p_feed_name (default (mkFeedParams None None) params) with
        | None => Raise (KeyError "feed_name") st
        | Some feed_name =>
            let feed_address := feed_address_of agent_address feed_name in
            if bool_decide (feed_address ∈ subscribed_feeds st)
            then Ok (false, "Already subscribed to feed " +:+ feed_address) st
            else Ok (true, "Subscribed to data feeds.")
                   (final_state (add_feed agent_address feed_name st))
        end
    end.
Proof.
  unfold add_feed_task. cbv zeta.
  destruct (p_agent_address _); [|reflexivity].
  destruct (p_feed_name _); [|reflexivity].
  unfold bind at 1. unfold reads.
  case_bool_decide as Hin; [done|].
  unfold_monad. rewrite !add_feed_unfold. cbv zeta.
  by rewrite bool_decide_false.
Qed.

Lemma add_feed_task_given agent_address feed_name st :
  let feed_address := feed_address_of agent_address feed_name in
  add_feed_task (Some (mkFeedParams (Some agent_address) (Some feed_name))) st
  = if bool_decide (feed_address ∈ subscribed_feeds st)
    then Ok (false, "Already subscribed to feed " +:+ feed_address) st
    else Ok (true, "Subscribed to data feeds.")
           (final_state (add_feed agent_address feed_name st)).
Proof. by rewrite add_feed_task_unfold. Qed.

Lemma add_feed_task_wf params st :
  wf st → wf (final_state (add_feed_task params st)).
Proof.
  intros Hwf. rewrite add_feed_task_unfold. cbv zeta.
  destruct (p_agent_address _); [|done].
  destruct (p_feed_name _); [|done].
  case_bool_decide; [done|]. by apply add_feed_wf.
Qed.

(** Every reachable state of the object is well formed. *)
Lemma step_wf s ev : wf (obj s) → wf (obj (step env s ev).1).
Proof.
  intros Hwf. destruct ev; simpl.
  - destruct (proc s); [|done].
    pose proof (start_aggregate_enter_quiet params now (obj s)) as Hq.
    destruct (start_aggregate_enter _ _ _ _); simpl in *;
      by apply (quiet_wf _ _ Hq).
  - destruct (proc s) as [|l]; [done|].
    pose proof (start_aggregate_resume_quiet l now now' (obj s)) as Hq.
    destruct (start_aggregate_resume _ _ _ _ _) as [[l'|r] st|e st];
      simpl in *; by apply (quiet_wf _ _ Hq).
  - by apply (quiet_wf _ _ (stop_aggregate_quiet (obj s))).
  - by apply data_handler_wf.
  - by apply add_feed_task_wf.
  - by apply add_feed_wf.
Qed.

Lemma reachable_wf s : reachable env s → wf (obj s).
Proof.
  induction 1 as [|s ev _ IH]; [apply init_wf | by apply step_wf].
Qed.


Lemma reachable_run_from s evs :
  reachable env s → reachable env (run env s evs).1.
Proof.
  revert s. induction evs as [|ev evs IH]; intros s Hs; [done|].
  simpl. pose proof (reachable_step env s ev Hs) as Hs'.
  destruct (step env s ev) as [s' o]. specialize (IH s' Hs').
  by destruct (run env s' evs).
Qed.

Lemma reachable_run evs : reachable env (run env init_sys evs).1.
Proof. apply reachable_run_from, reachable_init. Qed.

(** *** The registry and the buffers *)

Lemma data_handler_registry d current_time st :
  registry_consistent st →
  registry_consistent (final_state (_data_handler env d current_time st)).
Proof.
  intros Hrc. destruct (aggregate st) eqn:Hrun.
  2: { unfold _data_handler. unfold_monad. by rewrite Hrun. }
  destruct d as [data feed|data feed].
  { eapply quiet_registry_consistent;
      [apply data_handler_buffered_quiet | done]. }
  rewrite data_handler_unbuffered by done. cbv zeta.
  set (addr := address feed).
  destruct (Dict.get (buffers st) addr) as [b|] eqn:Hb; [|done].
  set (st1 := if is_nil b then _ else st).
  assert (Hrc1 : registry_consistent st1) by (subst st1; by destruct b).
  destruct (buffer_start_times st1 !! addr) as [t0|] eqn:Ht; [|done].
  destruct (Qgtb _ _).
  - pose proof (write_frame_to_file_quiet addr b st1) as Hq.
    pose proof (quiet_registry_consistent _ _ Hq Hrc1) as Hrc2.
    destruct (write_frame_to_file env addr b st1) as [[] st2|e st2];
      [|done].
    red_state. intros a Ha. red_state.
    by apply Dict.keys_set_mono, Dict.keys_set_mono, Hrc2.
  - red_state. intros a Ha. red_state.
    apply Dict.keys_set_mono, Hrc1, Ha.
Qed.

Lemma add_feed_registry agent_address feed_name st :
  registry_consistent st →
  registry_consistent (final_state (add_feed agent_address feed_name st)).
Proof.
  intros Hrc. rewrite add_feed_unfold. cbv zeta.
  case_bool_decide as Hin; [done|]. red_state.
  intros a. red_state. rewrite elem_of_app, list_elem_of_singleton.
  intros [Ha| ->].
  - by apply Dict.keys_set_mono, Hrc.
  - apply Dict.get_is_Some_keys. rewrite Dict.get_set_eq. eauto.
Qed.

(** C10 — registry/buffer consistency: the freshly constructed object has
    every subscribed feed address in its buffer map, and every event (a
    start, a wake-up of the loop, a stop, a delivery, a subscription by the
    task or by the registry callback), whether it returns or raises, takes a
    state with that property to a state with that property. *)
Theorem registry_buffer_consistency :
  registry_consistent init ∧
  ∀ s ev,
    registry_consistent (obj s) →
    registry_consistent (obj (step env s ev).1).
Proof.
  split.
  { intros a H. by apply elem_of_nil in H. }
  intros s ev Hrc. destruct ev; simpl.
  - destruct (proc s); [|done].
    pose proof (start_aggregate_enter_quiet params now (obj s)) as Hq.
    destruct (start_aggregate_enter _ _ _ _); simpl in *;
      by apply (quiet_registry_consistent _ _ Hq).
  - destruct (proc s) as [|l]; [done|].
    pose proof (start_aggregate_resume_quiet l now now' (obj s)) as Hq.
    destruct (start_aggregate_resume _ _ _ _ _) as [[l'|r] st|e st];
      simpl in *; by apply (quiet_registry_consistent _ _ Hq).
  - by apply (quiet_registry_consistent _ _ (stop_aggregate_quiet (obj s))).
  - by apply data_handler_registry.
  - rewrite add_feed_task_unfold. cbv zeta.
    destruct (p_agent_address _); [|done].
    destruct (p_feed_name _); [|done].
    case_bool_decide; [done|]. by apply add_feed_registry.
  - by apply add_feed_registry.
Qed.

(** C9 — the handler's lookups: in a reachable system that is running, a
    delivery from a feed that is not buffered and whose address is a key of
    the buffer map never ends in a KeyError (the lookups of the buffer and of
    its start time succeed); in any running state, a delivery whose address
    is not a key of the buffer map raises KeyError on that address and
    leaves the state as it was, the sample neither dropped silently nor
    buffered. *)
Theorem buffer_lookup_safety :
  (∀ s data feed current_time,
      reachable env s →
      aggregate (obj s) = true →
      address feed ∈ Dict.keys (buffers (obj s)) →
      ∀ k st',
        _data_handler env (Unbuffered data feed) current_time (obj s)
        ≠ Raise (KeyError k) st') ∧
  (∀ st data feed current_time,
      aggregate st = true →
      address feed ∉ Dict.keys (buffers st) →
      _data_handler env (Unbuffered data feed) current_time st
      = Raise (KeyError (address feed)) st).
Proof.
  split.
  - intros s data feed current_time Hreach Hrun Hin k st'.
    apply reachable_wf in Hreach as (_ & Hst & _).
    rewrite data_handler_unbuffered by done. cbv zeta.
    set (addr := address feed) in *.
    apply Dict.get_is_Some_keys in Hin as [b Hb]. rewrite Hb.
    set (st1 := if is_nil b then _ else obj s).
    assert (Ht : is_Some (buffer_start_times st1 !! addr)).
    { subst st1. destruct b as [|p b'].
      - cbn [is_nil]. red_state. rewrite lookup_insert_eq. eauto.
      - by apply (Hst addr (p :: b')). }
    destruct Ht as [t0 ->].
    destruct (Qgtb _ _); [|done].
    destruct (write_frame_to_file_cases addr b st1)
      as [(e & -> & He)|(w & frame & _ & _ & _ & ->)]; [|done].
    intros [= -> _]. by apply (He k).
  - intros st data feed current_time Hrun Hnin.
    rewrite data_handler_unbuffered by done. cbv zeta.
    apply Dict.get_None_keys in Hnin. by rewrite Hnin.
Qed.

(** *** Subscriptions *)

Lemma NoDup_filter_one (l : list string) a :
  NoDup l → a ∈ l → length (filter (fun x => x = a) l) = 1.
Proof.
  induction l as [|x l IH]; intros Hnd Hin.
  - by apply elem_of_nil in Hin.
  - apply NoDup_cons in Hnd as [Hx Hnd].
    destruct (decide (x = a)) as [->|Hne].
    + rewrite filter_cons_True by done. simpl. f_equal.
      assert (Hnil : filter (fun x => x = a) l = []); [|by rewrite Hnil].
      clear -Hx. induction l as [|y l IH]; [done|].
      apply not_elem_of_cons in Hx as [Hne Hx].
      rewrite filter_cons_False by congruence. auto.
    + rewrite filter_cons_False by done.
      apply elem_of_cons in Hin as [->|Hin]; [done|]. auto.
Qed.

(** C6 — idempotent subscription: in a reachable system, once the add_feed
    task has been run for a feed address, running it again for that address
    (from whatever agent address and feed name it is built) returns
    [(False, "Already subscribed to feed ...")] without raising and leaves
    the system exactly as it was; the registry callback's [add_feed] does the
    same silently. The address then occurs exactly once in the subscription
    list and exactly once among the registrations made with the agent, and
    it has a buffer. *)
Theorem subscribe_idempotent
    s agent_address feed_name agent_address' feed_name' :
  reachable env s →
  feed_address_of agent_address' feed_name'
  = feed_address_of agent_address feed_name →
  let addr := feed_address_of agent_address feed_name in
  let s1 :=
    (step env s
       (AddFeedTask
          (Some (mkFeedParams (Some agent_address) (Some feed_name))))).1 in
  step env s1
    (AddFeedTask (Some (mkFeedParams (Some agent_address') (Some feed_name'))))
  = (s1, Result false ("Already subscribed to feed " +:+ addr)) ∧
  step env s1 (AddFeed agent_address' feed_name') = (s1, Returned) ∧
  length (filter (fun a => a = addr) (subscribed_feeds (obj s1))) = 1 ∧
  length (filter (fun a => a = addr) (registered_addresses (obj s1))) = 1 ∧
  is_Some (Dict.get (buffers (obj s1)) addr).
Proof.
  intros Hreach Haddr addr s1.
  set (p := Some (mkFeedParams (Some agent_address) (Some feed_name))) in *.
  assert (Hwf1 : wf (obj s1)).
  { subst s1. apply step_wf. by apply reachable_wf. }
  assert (Hin : addr ∈ subscribed_feeds (obj s1)).
  { subst s1 p. cbn [step fst obj]. rewrite add_feed_task_given.
    cbv zeta. fold addr.
    case_bool_decide as Hin; [done|]. red_state.
    rewrite add_feed_unfold. cbv zeta. fold addr.
    rewrite bool_decide_false by done. red_state.
    apply elem_of_app. right. apply list_elem_of_here. }
  destruct Hwf1 as (Hrc & _ & Hnd & Hreg).
  assert (Hs1 : s1 = mkSys (obj s1) (proc s1)) by done.
  split_and!.
  - rewrite Hs1 at 1. cbn [step obj proc]. rewrite add_feed_task_given.
    cbv zeta. rewrite Haddr. fold addr. by rewrite bool_decide_true.
  - rewrite Hs1 at 1. cbn [step obj proc]. rewrite add_feed_unfold.
    cbv zeta. rewrite Haddr. fold addr. by rewrite bool_decide_true.
  - by apply NoDup_filter_one.
  - rewrite Hreg. by apply NoDup_filter_one.
  - apply Dict.get_is_Some_keys. by rewrite Hrc.
Qed.

(** C8 (amended) — missing parameters: the add_feed task called without
    params, or without agent_address, or without feed_name, raises KeyError
    on the missing name and leaves the state exactly as it was. The
    aggregate process has no required parameter: called without params, or
    with params that lack a key, it runs as with time_per_file 3600,
    time_per_frame 600 and data_dir "data/". *)
Theorem missing_parameters params st :
  (params = None ∨
   ∃ p, params = Some p ∧ (p_agent_address p = None ∨ p_feed_name p = None)) →
  (∃ k, add_feed_task params st = Raise (KeyError k) st ∧
        (k = "agent_address" ∨ k = "feed_name")) ∧
  (∀ sp now st0,
      start_aggregate_enter env sp now st0
      = start_aggregate_enter env
          (Some (mkStartParams
                   (Some (default (PNum 3600) (sp ≫= p_time_per_file)))
                   (Some (default (PNum 600) (sp ≫= p_time_per_frame)))
                   (Some (default (PStr "data/") (sp ≫= p_data_dir)))))
          now st0).
Proof.
  intros Hmiss. split.
  - rewrite add_feed_task_unfold.
    destruct Hmiss as [->|(p & -> & [Ha|Hf])]; simpl.
    + exists "agent_address". auto.
    + rewrite Ha. exists "agent_address". auto.
    + rewrite Hf. destruct (p_agent_address p).
      * exists "feed_name". auto.
      * exists "agent_address". auto.
  - intros [sp|] now st0; [|done].
    unfold start_aggregate_enter. simpl.
    by destruct (p_time_per_file sp), (p_data_dir sp).
Qed.

(** *** The sample lists handed to the serializer *)












(** *** The end-of-file flush *)

Lemma flush_items_app da db st :
  flush_items env (da ++ db) st
  = match flush_items env da st with
    | Ok _ st' => flush_items env db st'
    | Raise e st' => Raise e st'
    end.
Proof.
  revert st. induction da as [|[k v] da IH]; intros st; [done|].
  cbn [flush_items app].
  set (m := if is_nil v then _ else _). unfold bind.
  destruct (m st) as [[] st1|e st1]; [|done].
  apply IH.
Qed.

Lemma emptied_keys d : Dict.keys (emptied d) = Dict.keys d.
Proof.
  unfold Dict.keys, emptied. rewrite <- list_fmap_compose. done.
Qed.

(** After the entries [da] have been flushed, their buffers are empty and
    the others are as they were. *)
Lemma flush_items_buffers d0 da rest st st' :
  buffers st = d0 ++ da ++ rest →
  NoDup (Dict.keys (d0 ++ da ++ rest)) →
  flush_items env da st = Ok tt st' →
  buffers st' = d0 ++ emptied da ++ rest.
Proof.
  revert d0 st. induction da as [|[k v] da IH]; intros d0 st Hb Hnd.
  - simpl. unfold ret. by intros [= <-].
  - simpl. unfold bind at 1.
    assert (Hk : k ∉ Dict.keys d0).
    { rewrite Dict.keys_app in Hnd. apply NoDup_app in Hnd as (_ & Hd & _).
      intros Hin. apply (Hd _ Hin). simpl. apply list_elem_of_here. }
    assert (Hnd' : NoDup (Dict.keys ((d0 ++ [(k, [])]) ++ da ++ rest))).
    { unfold Dict.keys in *.
      rewrite !fmap_app, ?fmap_cons in *. simpl in *.
      by rewrite <- app_assoc. }
    destruct v as [|p v]; cbn [is_nil].
    + unfold ret at 1. intros Hf.
      eapply (IH (d0 ++ [(k, [])])) in Hf; [| |done].
      * rewrite Hf, <- app_assoc. done.
      * rewrite Hb, <- app_assoc. done.
    + unfold bind at 1.
      pose proof (write_frame_to_file_frame k (p :: v) st) as (Hbw & _).
      destruct (write_frame_to_file env k (p :: v) st) as [[] st1|e st1];
        [|done].
      unfold set_buffer, modify. red_state. intros Hf.
      eapply (IH (d0 ++ [(k, [])])) in Hf; [| |done].
      * rewrite Hf, <- app_assoc. done.
      * red_state. rewrite Hbw, Hb.
        rewrite Dict.set_app_fresh by done. simpl.
        rewrite decide_True by done. by rewrite <- app_assoc.
Qed.

(** C7 — a failed serialization keeps the buffer. In the handler: when the
    threshold is exceeded and the serializer call on the feed's buffer
    raises, the handler raises the same exception and the feed's buffer is
    what it was. In the end-of-file flush: when the entries before feed [k]
    have been flushed and the serializer call on [k]'s buffer raises,
    [end_file] raises the same exception, [k]'s buffer is what it was, and so
    are the buffers of the feeds after [k]. (The keys of a dictionary are
    distinct.) *)
Theorem failed_flush_keeps_buffer :
  (∀ st data feed current_time b t0 e st2,
      aggregate st = true →
      Dict.get (buffers st) (address feed) = Some b →
      let st1 :=
        if is_nil b
        then with_start_times
               (<[address feed := current_time]> (buffer_start_times st)) st
        else st in
      buffer_start_times st1 !! address feed = Some t0 →
      (buffer_time feed < current_time - t0)%Q →
      write_frame_to_file env (address feed) b st1 = Raise e st2 →
      _data_handler env (Unbuffered data feed) current_time st = Raise e st2 ∧
      Dict.get (buffers st2) (address feed) = Some b) ∧
  (∀ st d1 k v d2 st_mid e st',
      buffers st = d1 ++ (k, v) :: d2 →
      NoDup (Dict.keys (buffers st)) →
      v ≠ [] →
      flush_items env d1 st = Ok tt st_mid →
      write_frame_to_file env k v st_mid = Raise e st' →
      end_file env st = Raise e st' ∧
      Dict.get (buffers st') k = Some v ∧
      ∀ k' v', (k', v') ∈ d2 → Dict.get (buffers st') k' = Some v').
Proof.
  split.
  - intros st data feed current_time b t0 e st2 Hrun Hb st1 Ht Hlt Hw.
    rewrite data_handler_unbuffered by done. cbv zeta. rewrite Hb.
    fold st1. rewrite Ht. apply Qgtb_true in Hlt. rewrite Hlt, Hw.
    split; [done|].
    pose proof (write_frame_to_file_frame (address feed) b st1) as (Hbw & _).
    rewrite Hw in Hbw. red_state. rewrite Hbw.
    subst st1. by destruct b.
  - intros st d1 k v d2 st_mid e st' Hb Hnd Hv Hf Hw.
    assert (Hmid : buffers st_mid = emptied d1 ++ (k, v) :: d2).
    { apply (flush_items_buffers [] d1 ((k, v) :: d2) st st_mid);
        [done | by rewrite <- Hb | done]. }
    assert (Hst' : buffers st' = emptied d1 ++ (k, v) :: d2).
    { pose proof (write_frame_to_file_frame k v st_mid) as (Hbw & _).
      rewrite Hw in Hbw. red_state. by rewrite Hbw. }
    assert (Hnd' : NoDup (Dict.keys (buffers st'))).
    { rewrite Hst', Dict.keys_app, emptied_keys, <- Dict.keys_app.
      by rewrite <- Hb. }
    split_and!.
    + unfold end_file. unfold bind at 1. unfold reads. rewrite Hb.
      apply bind_Raise. rewrite flush_items_app, Hf. simpl.
      unfold bind at 1. destruct v as [|p v]; [done|]. cbn [is_nil].
      unfold bind at 1. by rewrite Hw.
    + apply Dict.get_NoDup_elem; [done|]. rewrite Hst'.
      apply elem_of_app. right. apply list_elem_of_here.
    + intros k' v' Hin. apply Dict.get_NoDup_elem; [done|]. rewrite Hst'.
      apply elem_of_app. right. by apply list_elem_of_further.
Qed.

(** *** Accounting: what is recorded and what is pending *)

Definition total (st : State) : list Sample := recorded st ++ pending st.

(** [conserves st st']: the samples in the files and the buffers together
    are the same in [st'] as in [st]. *)
Definition conserves (st st' : State) : Prop := total st' ≡ₚ total st.

#[local] Instance conserves_refl : Reflexive conserves.
Proof. intros st. unfold conserves. done. Qed.

#[local] Instance conserves_trans : Transitive conserves.
Proof. intros st1 st2 st3 H1 H2. unfold conserves in *. by rewrite H2. Qed.

Lemma same_store_conserves st st' :
  released st' = released st → file st' = file st →
  buffers st' = buffers st → conserves st st'.
Proof.
  intros Hr Hf Hb. unfold conserves, total, recorded, pending.
  by rewrite Hr, Hf, Hb.
Qed.

Lemma pending_in_app d1 d2 :
  pending_in (d1 ++ d2) = pending_in d1 ++ pending_in d2.
Proof. unfold pending_in. apply bind_app. Qed.

Lemma pending_in_cons k b d :
  pending_in ((k, b) :: d) = samples_of k b ++ pending_in d.
Proof. unfold pending_in. by rewrite bind_cons. Qed.



(** The samples around one buffer of the map. *)
Lemma pending_in_get d k b :
  Dict.get d k = Some b →
  ∃ P1 P2,
    pending_in d = P1 ++ samples_of k b ++ P2 ∧
    ∀ b', pending_in (Dict.set d k b') = P1 ++ samples_of k b' ++ P2.
Proof.
  intros (d1 & d2 & -> & _ & Hset)%Dict.get_Some_split.
  exists (pending_in d1), (pending_in d2). split.
  - by rewrite pending_in_app, pending_in_cons.
  - intros b'. by rewrite Hset, pending_in_app, pending_in_cons.
Qed.

Lemma bind_nil {A B} (f : A → list B) : ([] : list A) ≫= f = [].
Proof. done. Qed.

Lemma recorded_extend st st' w n frame :
  file st = Some w →
  released st' = released st →
  file st' = Some (mkWriter n (w_frames w ++ [frame])) →
  recorded st' = recorded st ++ frame_samples frame.
Proof.
  intros Hw Hr Hw'. unfold recorded. rewrite Hr, Hw, Hw'. simpl.
  rewrite !bind_app, !bind_cons, !bind_nil, !app_nil_r.
  unfold writer_samples. simpl.
  rewrite bind_app, bind_cons, bind_nil, app_nil_r. by rewrite app_assoc.
Qed.

(** A serializer call that returns has recorded the samples of its buffer;
    one that raises has recorded nothing. *)
Lemma write_frame_to_file_recorded feed_address buffer st :
  let r := write_frame_to_file env feed_address buffer st in
  recorded (final_state r)
  ≡ₚ recorded st ++ (if raised r then [] else samples_of feed_address buffer).
Proof.
  destruct (write_frame_to_file_cases feed_address buffer st)
    as [(e & -> & _)|(w & frame & Hw & Hf & _ & ->)]; cbv zeta; red_state.
  - by rewrite app_nil_r.
  - erewrite recorded_extend; [|exact Hw|done|done].
    by rewrite (frame_samples_make_frame _ _ _ Hf).
Qed.

Lemma file_call_end_conserves :
  preserves conserves (file_call env EndProcessing).
Proof.
  intros st. unfold file_call. destruct (file st) as [w|] eqn:Hw; [|done].
  destruct (sink_accepts env w EndProcessing); [|done]. red_state.
  unfold conserves, total.
  erewrite recorded_extend; [|exact Hw|done|done].
  simpl. by rewrite app_nil_r.
Qed.


Lemma writer_eta w : mkWriter (w_filename w) (w_frames w) = w.
Proof. by destruct w. Qed.

Lemma perm_move_in {A} (R S P1 P2 : list A) :
  (R ++ S) ++ P1 ++ P2 ≡ₚ R ++ P1 ++ S ++ P2.
Proof.
  rewrite <- !app_assoc. f_equiv.
  rewrite !app_assoc. f_equiv. apply Permutation_app_comm.
Qed.

(** One turn of the loop of [end_file], on the entry [(k, v)] of the buffer
    map. *)
Lemma flush_one d0 k v rest st :
  buffers st = d0 ++ (k, v) :: rest →
  k ∉ Dict.keys d0 →
  match (if is_nil v then ret tt
         else (_ <- write_frame_to_file env k v ;; set_buffer k [])) st with
  | Ok _ st1 =>
      buffers st1 = d0 ++ (k, []) :: rest ∧
      released st1 = released st ∧
      aggregate st1 = aggregate st ∧
      conserves st st1 ∧
      (file st = None → file st1 = None) ∧
      ∃ frames,
        (∀ w, file st = Some w →
              file st1 = Some (mkWriter (w_filename w) (w_frames w ++ frames))) ∧
        frames ≫= frame_samples ≡ₚ samples_of k v ∧
        Forall (fun f => f ≠ EndProcessing) frames
  | Raise e st1 => conserves st st1
  end.
Proof.
  intros Hb Hk. destruct v as [|p v]; cbn [is_nil].
  - unfold ret. split_and!; try done.
    exists []. split_and!; [|done|done].
    intros w ->. by rewrite app_nil_r, writer_eta.
  - unfold bind.
    pose proof (write_frame_to_file_recorded k (p :: v) st) as Hrec.
    pose proof (write_frame_to_file_frame k (p :: v) st)
      as (Hbw & _ & Hagg & _ & _ & Hrel & _).
    destruct (write_frame_to_file_cases k (p :: v) st)
      as [(e & He & _)|(w & frame & Hw & Hf & _ & Hok)].
    + rewrite He in *. red_state.
      by apply same_store_conserves.
    + rewrite Hok in *. cbv zeta in Hrec. red_state.
      unfold set_buffer, modify. red_state.
      assert (Hget : Dict.get (buffers st) k = Some (p :: v)).
      { rewrite Hb, Dict.get_app_fresh by done. simpl.
        by rewrite decide_True. }
      split_and!; try done.
      * rewrite Hb, Dict.set_app_fresh by done. simpl.
        by rewrite decide_True.
      * unfold conserves, total, pending. red_state.
        change (recorded (with_buffers _ ?x)) with (recorded x).
        rewrite Hrec.
        destruct (pending_in_get _ _ _ Hget) as (P1 & P2 & -> & ->).
        change (samples_of k []) with (@nil Sample). simpl.
        apply perm_move_in.
      * intros Hn. by rewrite Hw in Hn.
      * exists [frame]. split_and!.
        -- intros w' Hw'. rewrite Hw in Hw'. by injection Hw' as <-.
        -- rewrite bind_cons, bind_nil, app_nil_r.
           by apply frame_samples_make_frame.
        -- apply Forall_singleton. unfold make_frame in Hf.
           repeat case_match; try done. by injection Hf as <-.
Qed.

Lemma flush_items_account d0 da rest st :
  buffers st = d0 ++ da ++ rest →
  NoDup (Dict.keys (d0 ++ da ++ rest)) →
  match flush_items env da st with
  | Ok _ st' =>
      buffers st' = d0 ++ emptied da ++ rest ∧
      released st' = released st ∧
      aggregate st' = aggregate st ∧
      conserves st st' ∧
      (file st = None → file st' = None) ∧
      ∃ frames,
        (∀ w, file st = Some w →
              file st' = Some (mkWriter (w_filename w) (w_frames w ++ frames))) ∧
        frames ≫= frame_samples ≡ₚ pending_in da ∧
        Forall (fun f => f ≠ EndProcessing) frames
  | Raise e st' => conserves st st'
  end.
Proof.
  revert d0 st. induction da as [|[k v] da IH]; intros d0 st Hb Hnd.
  - simpl. unfold ret. split_and!; try done.
    exists []. split_and!; [|done|done].
    intros w ->. by rewrite app_nil_r, writer_eta.
  - cbn [flush_items].
    assert (Hk : k ∉ Dict.keys d0).
    { rewrite Dict.keys_app in Hnd. apply NoDup_app in Hnd as (_ & Hd & _).
      intros Hin. apply (Hd _ Hin). simpl. apply list_elem_of_here. }
    assert (Hnd' : NoDup (Dict.keys ((d0 ++ [(k, [])]) ++ da ++ rest))).
    { unfold Dict.keys in *.
      rewrite !fmap_app, ?fmap_cons in *. simpl in *.
      by rewrite <- app_assoc. }
    pose proof (flush_one d0 k v (da ++ rest) st Hb Hk) as H1.
    set (m := if is_nil v then _ else _) in *.
    unfold bind at 1.
    destruct (m st) as [[] st1|e st1]; [|done].
    destruct H1 as (Hb1 & Hr1 & Ha1 & Hc1 & Hno1 & frames1 & Hf1 & Hs1 & Hn1).
    assert (Hb1' : buffers st1 = (d0 ++ [(k, [])]) ++ da ++ rest)
      by (by rewrite <- app_assoc).
    specialize (IH (d0 ++ [(k, [])]) st1 Hb1' Hnd').
    destruct (flush_items env da st1) as [[] st'|e st']; [|by etrans].
    destruct IH as (Hb2 & Hr2 & Ha2 & Hc2 & Hno2 & frames2 & Hf2 & Hs2 & Hn2).
    split_and!; try congruence.
    + rewrite Hb2, <- app_assoc. done.
    + by etrans.
    + auto.
    + exists (frames1 ++ frames2). split_and!.
      * intros w Hw. rewrite (Hf2 _ (Hf1 w Hw)). simpl.
        by rewrite app_assoc.
      * rewrite bind_app, Hs1, Hs2. by rewrite pending_in_cons.
      * by apply Forall_app.
Qed.

(** The end-of-file flush, when it returns: a file was open, the frames of
    the buffers that were not empty went into it, the end-of-processing
    frame after them, and every buffer is empty. *)
Lemma end_file_account st :
  NoDup (Dict.keys (buffers st)) →
  match end_file env st with
  | Ok _ st' =>
      buffers st' = emptied (buffers st) ∧
      released st' = released st ∧
      aggregate st' = aggregate st ∧
      conserves st st' ∧
      ∃ w frames,
        file st = Some w ∧
        file st' = Some (mkWriter (w_filename w)
                           (w_frames w ++ frames ++ [EndProcessing])) ∧
        frames ≫= frame_samples ≡ₚ pending st ∧
        Forall (fun f => f ≠ EndProcessing) frames
  | Raise e st' => conserves st st'
  end.
Proof.
  intros Hnd. unfold end_file. unfold bind at 1. unfold reads.
  pose proof (flush_items_account [] (buffers st) [] st) as H1.
  rewrite app_nil_r in H1. specialize (H1 eq_refl Hnd).
  unfold bind.
  destruct (flush_items env (buffers st) st) as [[] st1|e st1]; [|done].
  destruct H1 as (Hb1 & Hr1 & Ha1 & Hc1 & Hno & frames & Hf1 & Hs1 & Hn1).
  rewrite app_nil_r in Hb1. simpl in Hb1.
  pose proof (file_call_end_conserves st1) as Hc2.
  unfold file_call in *.
  destruct (file st1) as [w1|] eqn:Hw1; [|by etrans].
  destruct (sink_accepts env w1 EndProcessing); [|by etrans].
  red_state. split_and!; try done; [by etrans|].
  destruct (file st) as [w|] eqn:Hw.
  - specialize (Hf1 w eq_refl). injection Hf1 as ->.
    exists w, frames. split_and!; try done.
    simpl. by rewrite <- app_assoc.
  - by specialize (Hno eq_refl).
Qed.










End Properties.

(** ** A laboratory: concrete feeds, samples and runs *)

Local Open Scope Q_scope.

(** Every library call succeeds; the clock starts at 1604361600, midnight
    of 2020-11-03, and the paths are those of the two start times used
    below, 0 s and 4000 s after it. *)
Definition lab_env : Env :=
  {| sink_accepts := fun _ _ => true;
     dir_ready := fun _ => true;
     writer_opens := fun _ => true;
     sub_dir_path := fun data_dir _ => data_dir +:+ "16043";
     file_path := fun sub_dir now =>
       sub_dir +:+ (if Qle_bool now 3600
                    then "/2020-11-03-00-00-00.g3"
                    else "/2020-11-03-01-06-40.g3") |}.

Definition therm : Feed := mkFeed "dev1.feeds.therm" 1.
Definition sample1 : DataPoint := [("ch1", (0, 10))].
Definition sample2 : DataPoint := [("ch1", (0.5, 11))].
Definition sample3 : DataPoint := [("ch1", (1.2, 12))].

(** Subscribed to dev1's feed and started, with time_per_frame 1. *)
Definition started : list Event :=
  [AddFeed "dev1" "therm";
   Start (Some (mkStartParams None (Some (PNum 1)) None)) 0].

Definition after_start : Sys := (run lab_env init_sys started).1.

(** ... and with the samples of t=0 and t=0.5 delivered. *)
Definition after_two : Sys :=
  (run lab_env after_start
     [Deliver (Unbuffered sample1 therm) 0;
      Deliver (Unbuffered sample2 therm) 0.5]).1.

(** A whole run: three samples, a batch from a buffered feed, a rotation
    (4000 s exceed the default 3600 s), one more sample, a stop, a sample
    delivered after the stop, and the wake-up that ends the loop. *)
Definition whole_run : list Event :=
  started ++
  [Deliver (Unbuffered sample1 therm) 0;
   Deliver (Unbuffered sample2 therm) 0.5;
   Deliver (Unbuffered sample3 therm) 1.2;
   Deliver (Buffered [sample1; sample2] (mkFeed "dev2.feeds.press" 10)) 2;
   Wake 4000 4000;
   Deliver (Unbuffered sample1 therm) 4001;
   Stop;
   Deliver (Unbuffered sample2 therm) 4002;
   Wake 4003 4003].

(** A feed whose agent address itself contains [".feeds."]. *)
Definition nested : Feed := mkFeed (feed_address_of "site.feeds.rack" "therm") 1.

Definition after_nested : Sys :=
  (run lab_env init_sys
     [AddFeed "site.feeds.rack" "therm"; Start None 0;
      Deliver (Unbuffered sample1 nested) 0]).1.

(** *** C1 *)


(** *** C2: the samples of t=0, t=0.5 and t=1.2 under a window of 1 s *)

Example two_samples_stay_buffered :
  (run lab_env after_start
     [Deliver (Unbuffered sample1 therm) 0;
      Deliver (Unbuffered sample2 therm) 0.5]).2 = [Returned; Returned] ∧
  Dict.get (buffers (obj after_two)) "dev1.feeds.therm"
  = Some [sample1; sample2] ∧
  buffer_start_times (obj after_two) !! "dev1.feeds.therm" = Some 0 ∧
  serializer_calls (obj after_two) = [].
Proof. vm_compute. done. Qed.


(** *** C3: a batch from a buffered feed goes straight to the file *)

Lemma buffered_feed_passthrough_witness :
  let st := obj after_two in
  let press := mkFeed "dev2.feeds.press" 10 in
  let r := _data_handler lab_env (Buffered [sample1; sample2] press) 0.7 st in
  r = write_frame_to_file lab_env "dev2.feeds.press" [sample1; sample2] st ∧
  buffers (final_state r) = buffers st ∧
  buffer_start_times (final_state r) = buffer_start_times st ∧
  serializer_calls (final_state r)
  = [("dev2.feeds.press", [sample1; sample2])] ∧
  w_frames <$> file (final_state r)
  = Some [Housekeeping "dev2" "press"
            [("ch1", [10; 11])] [("ch1", [0; 0.5])]].
Proof.
  intros st press r.
  assert (Hrun : aggregate st = true) by reflexivity.
  destruct (buffered_feed_passthrough lab_env [sample1; sample2] press 0.7
              st Hrun) as (H1 & H2 & H3 & H4 & _).
  split_and!; [exact H1 | exact H2 | exact H3 | exact H4 |].
  vm_compute. reflexivity.
Defined.

(** *** C4: the two ways an empty sample list reaches the serializer *)





(** *** C5: the address decides whether a frame is written, and its tags *)

(** An address with two separators, an address with none: [ValueError], no
    frame. An agent address that ends in [".feeds"]: a frame, tagged with
    pieces that are not the agent address and the feed name. No file open:
    [TypeError], as [self.file] is [None]. *)

Lemma serializer_rejects_address :
  let st := obj after_start in
  let addr := feed_address_of "site.feeds.rack" "therm" in
  write_frame_to_file lab_env addr [sample1] st
  = Raise ValueError (with_call (addr, [sample1]) st) ∧
  file (with_call (addr, [sample1]) st) = file st ∧
  write_frame_to_file lab_env "dev1" [sample1] st
  = Raise ValueError (with_call ("dev1", [sample1]) st) ∧
  w_frames <$> file (final_state
                       (write_frame_to_file lab_env
                          (feed_address_of "x.feeds" "y") [sample1] st))
  = Some [Housekeeping "x" "feeds.y" [("ch1", [10])] [("ch1", [0])]] ∧
  write_frame_to_file lab_env "dev1.feeds.therm" [sample1] init
  = Raise TypeError (with_call ("dev1.feeds.therm", [sample1]) init).
Proof. vm_compute. done. Qed.

Lemma write_frame_groups_by_key_witness :
  let st := obj after_start in
  let buffer : list DataPoint :=
    [[("ch1", (0, 10)); ("ch2", (0, 20))]; [("ch1", (0.5, 11))]] in
  ∃ tods timestamps,
    w_frames <$> file (final_state
                         (write_frame_to_file lab_env "dev1.feeds.therm"
                            buffer st))
    = Some [Housekeeping "dev1" "therm" tods timestamps] ∧
    Dict.keys tods = Dict.keys timestamps ∧
    Dict.get tods "ch1" = Some [10; 11] ∧
    Dict.get timestamps "ch1" = Some [0; 0.5] ∧
    Dict.get tods "ch2" = Some [20] ∧
    Dict.get timestamps "ch2" = Some [0].
Proof.
  intros st buffer.
  destruct (write_frame_groups_by_key lab_env "dev1.feeds.therm" "dev1"
              "therm" buffer st
              (mkWriter "data/16043/2020-11-03-00-00-00.g3" [])
              eq_refl eq_refl (fun _ => eq_refl))
    as (tods & timestamps & H1 & H2 & _ & H3 & H4).
  exists tods, timestamps. rewrite H1. split; [reflexivity|].
  split; [exact H2|].
  destruct (H4 "ch1") as (A1 & A2 & _);
    [apply H3; vm_compute; apply list_elem_of_here|].
  destruct (H4 "ch2") as (B1 & B2 & _);
    [apply H3; vm_compute; apply list_elem_of_further, list_elem_of_here|].
  split_and!; [exact A1 | exact A2 | exact B1 | exact B2].
Defined.

(** *** C6: subscribing twice *)

Lemma subscribe_idempotent_witness :
  let s1 :=
    (step lab_env init_sys
       (AddFeedTask (Some (mkFeedParams (Some "dev1") (Some "therm"))))).1 in
  step lab_env s1
    (AddFeedTask (Some (mkFeedParams (Some "dev1") (Some "therm"))))
  = (s1, Result false "Already subscribed to feed dev1.feeds.therm") ∧
  step lab_env s1 (AddFeed "dev1" "therm") = (s1, Returned) ∧
  subscribed_feeds (obj s1) = ["dev1.feeds.therm"] ∧
  registrations (obj s1) = [("dev1", "therm")] ∧
  buffers (obj s1) = [("dev1.feeds.therm", [])].
Proof.
  intros s1.
  destruct (subscribe_idempotent lab_env init_sys "dev1" "therm" "dev1"
              "therm" (reachable_init lab_env) eq_refl)
    as (H1 & H2 & _).
  split_and!; [exact H1 | exact H2 | reflexivity | reflexivity | reflexivity].
Defined.

(** *** C7: a flush that fails *)

Lemma failed_flush_keeps_buffer_witness :
  let st := obj after_nested in
  let addr := address nested in
  Dict.get (buffers st) addr = Some [sample1] ∧
  (∃ st2,
      _data_handler lab_env (Unbuffered sample2 nested) 5 st
      = Raise ValueError st2 ∧
      Dict.get (buffers st2) addr = Some [sample1]) ∧
  (∃ st',
      end_file lab_env st = Raise ValueError st' ∧
      Dict.get (buffers st') addr = Some [sample1]).
Proof.
  intros st addr.
  assert (Hb : Dict.get (buffers st) (address nested) = Some [sample1])
    by (vm_compute; reflexivity).
  split; [exact Hb|]. split.
  - exists (with_call (addr, [sample1]) st).
    apply (proj1 (failed_flush_keeps_buffer lab_env) st sample2 nested 5
             [sample1] 0 ValueError).
    + reflexivity.
    + exact Hb.
    + vm_compute. reflexivity.
    + vm_compute. reflexivity.
    + vm_compute. reflexivity.
  - exists (with_call (addr, [sample1]) st).
    destruct (proj2 (failed_flush_keeps_buffer lab_env) st [] addr [sample1]
                [] st ValueError (with_call (addr, [sample1]) st))
      as (H1 & H2 & _).
    + vm_compute. reflexivity.
    + vm_compute. repeat constructor; intros H; inversion H.
    + discriminate.
    + reflexivity.
    + vm_compute. reflexivity.
    + split; [exact H1 | exact H2].
Defined.

(** *** C8: parameters that are missing, parameters that are wrong *)

(** A data_dir that is a number, a time_per_file that is a string: the
    process sets the flag and only then, or one wake-up later with the first
    file open, raises. *)
Lemma start_with_bad_parameter :
  step lab_env init_sys
    (Start (Some (mkStartParams None None (Some (PNum 5)))) 0)
  = (mkSys (with_aggregate true init) Idle, Raised TypeError) ∧
  aggregate (with_aggregate true init) ≠ aggregate init ∧
  (let s1 :=
     (step lab_env init_sys
        (Start (Some (mkStartParams (Some (PStr "1h")) None None)) 0)).1 in
   (step lab_env init_sys
      (Start (Some (mkStartParams (Some (PStr "1h")) None None)) 0)).2
   = Returned ∧
   aggregate (obj s1) = true ∧
   file (obj s1) = Some (mkWriter "data/16043/2020-11-03-00-00-00.g3" []) ∧
   (step lab_env s1 (Wake 0.1 0.1)).2 = Raised TypeError).
Proof. vm_compute. split_and!; try done. Qed.

Lemma missing_parameters_witness :
  add_feed_task None (obj after_two)
  = Raise (KeyError "agent_address") (obj after_two) ∧
  add_feed_task (Some (mkFeedParams (Some "dev1") None)) (obj after_two)
  = Raise (KeyError "feed_name") (obj after_two) ∧
  start_aggregate_enter lab_env None 0 init
  = start_aggregate_enter lab_env
      (Some (mkStartParams (Some (PNum 3600)) (Some (PNum 600))
               (Some (PStr "data/")))) 0 init.
Proof.
  destruct (missing_parameters lab_env None (obj after_two) (or_introl eq_refl))
    as [(k & Hk & _) Hs].
  split_and!; [reflexivity | reflexivity | exact (Hs None 0 init)].
Defined.

(** *** C9: the handler's lookups *)

Lemma buffer_lookup_safety_witness :
  (∀ k st',
      _data_handler lab_env (Unbuffered sample3 therm) 1.2 (obj after_two)
      ≠ Raise (KeyError k) st') ∧
  _data_handler lab_env
    (Unbuffered sample1 (mkFeed "dev9.feeds.unknown" 1)) 0 (obj after_two)
  = Raise (KeyError "dev9.feeds.unknown") (obj after_two).
Proof.
  split.
  - apply (proj1 (buffer_lookup_safety lab_env) after_two sample3 therm 1.2).
    + apply reachable_run_from, reachable_run.
    + reflexivity.
    + vm_compute. apply list_elem_of_here.
  - apply (proj2 (buffer_lookup_safety lab_env) (obj after_two) sample1
             (mkFeed "dev9.feeds.unknown" 1) 0).
    + reflexivity.
    + vm_compute. intros H. apply list_elem_of_singleton in H. discriminate.
Defined.

(** *** C10: the registry and the buffers *)

Lemma registry_buffer_consistency_witness :
  registry_consistent (obj init_sys) ∧
  registry_consistent (obj (step lab_env init_sys (AddFeed "dev1" "therm")).1).
Proof.
  split.
  - exact (proj1 (registry_buffer_consistency lab_env)).
  - apply (proj2 (registry_buffer_consistency lab_env)).
    exact (proj1 (registry_buffer_consistency lab_env)).
Defined.

(** * Further properties of the agent *)

Local Close Scope Q_scope.

Section Further.
Variable env : Env.

Ltac unfold_monad :=
  unfold bind, ret, raise, modify, reads, lift in *.

Ltac red_state :=
  cbn [final_state raised subscribed_feeds buffers buffer_start_times
       aggregate filename file registrations released serializer_calls
       with_buffers with_start_times with_aggregate with_filename with_file
       with_released with_call with_subscription] in *.

(** ** Addresses and frame tags *)

(** X1 — the tags of a frame and the feed address: whenever a frame is built
    for an address, its two tags joined by [".feeds."] give the address
    back; and for an agent address and a feed name such that [".feeds."]
    occurs in the address made of them only between the two, a frame is built
    for every buffer and its tags are that agent address and that feed
    name. *)
Theorem frame_tags_round_trip :
  (∀ feed_address buffer agent_address feed tods timestamps,
      make_frame feed_address buffer
      = inr (Housekeeping agent_address feed tods timestamps) →
      feed_address = feed_address_of agent_address feed) ∧
  (∀ agent_address feed_name buffer,
      clean_before agent_address (".feeds." +:+ feed_name) = true →
      clean_before feed_name "" = true →
      ∃ tods timestamps,
        make_frame (feed_address_of agent_address feed_name) buffer
        = inr (Housekeeping agent_address feed_name tods timestamps)).
Proof.
  split.
  - intros feed_address buffer a f tods timestamps Hf.
    destruct (split_address feed_address) as [e|[a' f']] eqn:Hs.
    { unfold make_frame in Hf. by rewrite Hs in Hf. }
    destruct (make_frame_spec _ _ _ buffer Hs) as (t' & ts' & Hf' & _).
    rewrite Hf in Hf'. injection Hf' as -> -> _ _.
    by apply split_address_join.
  - intros a f buffer Ha Hf.
    pose proof (split_address_feed_address_of a f Ha Hf) as Hs.
    destruct (make_frame_spec _ _ _ buffer Hs) as (tods & tss & Hm & _).
    by exists tods, tss.
Qed.

(** ** What a delivery leaves alone *)

(** X2 — a delivery touches one feed: whatever the state, running or not,
    and whether the handler returns or raises, a delivery makes no
    subscription, does not change the aggregation flag, the file name or the
    files no longer written to, leaves the buffer map with the same keys, and
    leaves the buffer and the start time of every other address than its own
    as they were; a delivery from a buffered feed leaves all buffers and all
    start times as they were. *)
Theorem delivery_touches_one_feed d current_time st :
  let st' := final_state (_data_handler env d current_time st) in
  subscribed_feeds st' = subscribed_feeds st ∧
  registrations st' = registrations st ∧
  aggregate st' = aggregate st ∧
  filename st' = filename st ∧
  released st' = released st ∧
  Dict.keys (buffers st') = Dict.keys (buffers st) ∧
  (∀ a, a ≠ address (feed_of d) →
        Dict.get (buffers st') a = Dict.get (buffers st) a ∧
        buffer_start_times st' !! a = buffer_start_times st !! a) ∧
  (buffered d = true →
     buffers st' = buffers st ∧
     buffer_start_times st' = buffer_start_times st).
Proof.
  destruct (aggregate st) eqn:Hrun.
  2: { assert (H : _data_handler env d current_time st = Ok tt st).
       { unfold _data_handler. unfold_monad. by rewrite Hrun. }
       rewrite H. cbv zeta. red_state. by split_and!. }
  destruct d as [data feed|data feed].
  - rewrite data_handler_buffered by done.
    pose proof (write_frame_to_file_frame env (address feed) data st)
      as (Hb & Ht & Ha & Hs & Hr & Hrel & Hfn & _).
    cbv zeta in *. rewrite Hb, Ht, Ha, Hs, Hr, Hrel, Hfn.
    by split_and!.
  - rewrite data_handler_unbuffered by done. cbv zeta.
    cbn [feed_of buffered].
    set (addr := address feed).
    destruct (Dict.get (buffers st) addr) as [b|] eqn:Hb;
      [|red_state; by split_and!].
    set (st1 := if is_nil b then _ else st).
    assert (H1 : subscribed_feeds st1 = subscribed_feeds st ∧
                 registrations st1 = registrations st ∧
                 aggregate st1 = aggregate st ∧
                 filename st1 = filename st ∧
                 released st1 = released st ∧
                 buffers st1 = buffers st ∧
                 ∀ a, a ≠ addr →
                      buffer_start_times st1 !! a = buffer_start_times st !! a).
    { subst st1. destruct b; cbn [is_nil]; red_state; split_and!; try done.
      intros a Ha. by rewrite lookup_insert_ne. }
    destruct H1 as (S1 & R1 & A1 & F1 & L1 & B1 & T1).
    assert (Hin : addr ∈ Dict.keys (buffers st))
      by (apply Dict.get_is_Some_keys; rewrite Hb; eauto).
    destruct (buffer_start_times st1 !! addr) as [t0|] eqn:Ht.
    2: { red_state. rewrite S1, R1, A1, F1, L1, B1. split_and!; try done.
         intros a Ha. split; [done | by apply T1]. }
    destruct (Qgtb _ _).
    + pose proof (write_frame_to_file_frame env addr b st1)
        as (Hb2 & Ht2 & Ha2 & Hs2 & Hr2 & Hrel2 & Hfn2 & _).
      destruct (write_frame_to_file env addr b st1) as [[] st2|e st2];
        red_state.
      * rewrite Hs2, Hr2, Ha2, Hfn2, Hrel2, Hb2, Ht2, S1, R1, A1, F1, L1, B1.
        split_and!; try done.
        -- rewrite Dict.set_set. by apply Dict.keys_set_present.
        -- intros a Ha. rewrite !Dict.get_set_ne by done.
           rewrite lookup_insert_ne by done. split; [done | by apply T1].
      * rewrite Hs2, Hr2, Ha2, Hfn2, Hrel2, Hb2, Ht2, S1, R1, A1, F1, L1, B1.
        split_and!; try done.
        intros a Ha. split; [done | by apply T1].
    + red_state. rewrite S1, R1, A1, F1, L1, B1. split_and!; try done.
      * by apply Dict.keys_set_present.
      * intros a Ha. rewrite Dict.get_set_ne by done.
        split; [done | by apply T1].
Qed.

(** ** Starting a file, line by line *)

(** Lines 273-289: the end-of-file flush if a file is there, then the
    path, the directory, the writer. *)
Lemma new_file_cases data_dir now st :
  match (if file st is Some _ then end_file env st else Ok tt st) with
  | Raise e st1 => new_file env data_dir now st = Raise e st1
  | Ok _ st1 =>
      match data_dir with
      | PStr d =>
          let sub_dir := sub_dir_path env d now in
          let path := file_path env sub_dir now in
          if dir_ready env sub_dir
          then
            if writer_opens env path
            then new_file env data_dir now st
                 = Ok now
                     (with_file (Some (mkWriter path []))
                        (with_released (released st1 ++ option_list (file st1))
                           (with_filename path st1)))
            else new_file env data_dir now st
                 = Raise OSError (with_filename path st1)
          else new_file env data_dir now st = Raise OSError st1
      | _ => new_file env data_dir now st = Raise TypeError st1
      end
  end.
Proof.
  unfold new_file.
  rewrite (bind_Ok _ _ st (file st) st) by done.
  assert (Hm : (if file st is Some _ then end_file env else ret tt) st
               = (if file st is Some _ then end_file env st else Ok tt st))
    by (by destruct (file st)).
  destruct (if file st is Some _ then end_file env st else Ok tt st)
    as [[] st1|e st1].
  2: { by apply bind_Raise. }
  rewrite (bind_Ok _ _ st tt st1) by done.
  destruct data_dir as [| |d]; try done. cbv zeta.
  destruct (dir_ready env _); [|done].
  rewrite (bind_Ok _ _ st1 tt
             (with_filename (file_path env (sub_dir_path env d now) now) st1))
    by done.
  unfold bind, start_file, ret. red_state.
  by destruct (writer_opens env _).
Qed.

(** [files_kept st st']: from [st] to [st'] no writer was opened or let go,
    the file name is the same, and the open file, if any, has only had
    frames added at its end. *)
Definition files_kept (st st' : State) : Prop :=
  released st' = released st ∧
  filename st' = filename st ∧
  w_filename <$> file st' = w_filename <$> file st ∧
  (∀ w w', file st = Some w → file st' = Some w' →
           w_frames w `prefix_of` w_frames w').

#[local] Instance files_kept_refl : Reflexive files_kept.
Proof.
  intros st. split_and!; try done. intros w w' -> [= ->]. done.
Qed.

#[local] Instance files_kept_trans : Transitive files_kept.
Proof.
  intros st1 st2 st3 (R1 & N1 & F1 & P1) (R2 & N2 & F2 & P2).
  split_and!; try congruence.
  intros w w'' Hw Hw''.
  destruct (file st2) as [w'|] eqn:Hw'.
  - etrans; [by apply (P1 w w') | by apply (P2 w' w'')].
  - rewrite Hw in F1. done.
Qed.

Lemma same_file_kept st st' :
  released st' = released st → filename st' = filename st →
  file st' = file st → files_kept st st'.
Proof.
  intros Hr Hn Hf. split_and!; try done; rewrite Hf; [done|].
  intros w w' -> [= ->]. done.
Qed.

Lemma file_call_kept frame : preserves files_kept (file_call env frame).
Proof.
  intros st. unfold file_call. destruct (file st) as [w|] eqn:Hw;
    [|reflexivity].
  destruct (sink_accepts env w frame); [|reflexivity]. red_state.
  split_and!; red_state; try done; [by rewrite Hw|].
  intros w0 w' Hw0 [= <-]. rewrite Hw in Hw0. injection Hw0 as <-.
  simpl. by apply prefix_app_r.
Qed.

Lemma write_frame_to_file_kept feed_address buffer :
  preserves files_kept (write_frame_to_file env feed_address buffer).
Proof.
  unfold write_frame_to_file.
  apply preserves_bind; [apply _ | |].
  - apply preserves_modify. intros st. by apply same_file_kept.
  - intros _. apply preserves_bind; [apply _ | apply preserves_lift, _ |].
    intros frame. apply file_call_kept.
Qed.

Lemma flush_items_kept items : preserves files_kept (flush_items env items).
Proof.
  induction items as [|[k v] items IH]; simpl.
  - apply preserves_ret, _.
  - apply preserves_bind; [apply _ | | done].
    destruct (is_nil v); [apply preserves_ret, _|].
    apply preserves_bind; [apply _ | apply write_frame_to_file_kept |].
    intros _. apply preserves_modify. intros st. by apply same_file_kept.
Qed.

Lemma end_file_kept : preserves files_kept (end_file env).
Proof.
  unfold end_file. intros st. unfold bind at 1. unfold reads.
  apply (bind_related files_kept); [apply flush_items_kept|].
  intros _. apply file_call_kept.
Qed.

(** When [end_file] returns, the open file ends with the end-of-processing
    frame. *)
Lemma end_file_marker st st' :
  end_file env st = Ok tt st' →
  ∃ w', file st' = Some w' ∧ last (w_frames w') = Some EndProcessing.
Proof.
  unfold end_file. unfold bind at 1. unfold reads. unfold bind.
  destruct (flush_items env (buffers st) st) as [[] st1|e st1]; [|done].
  unfold file_call. destruct (file st1) as [w|]; [|done].
  destruct (sink_accepts env w EndProcessing); [|done].
  intros [= <-]. red_state. eexists. split; [done|]. simpl.
  apply last_snoc.
Qed.

Lemma data_handler_kept d current_time :
  preserves files_kept (_data_handler env d current_time).
Proof.
  intros st. destruct (aggregate st) eqn:Hrun.
  2: { assert (H : _data_handler env d current_time st = Ok tt st).
       { unfold _data_handler. unfold_monad. by rewrite Hrun. }
       rewrite H. reflexivity. }
  destruct d as [data feed|data feed].
  - rewrite data_handler_buffered by done. apply write_frame_to_file_kept.
  - rewrite data_handler_unbuffered by done. cbv zeta.
    set (addr := address feed).
    destruct (Dict.get (buffers st) addr) as [b|]; [|reflexivity].
    set (st1 := if is_nil b then _ else st).
    assert (H1 : files_kept st st1).
    { subst st1. destruct b; [by apply same_file_kept | reflexivity]. }
    destruct (buffer_start_times st1 !! addr) as [t0|]; [|done].
    destruct (Qgtb _ _).
    + pose proof (write_frame_to_file_kept addr b st1) as H2.
      destruct (write_frame_to_file env addr b st1) as [[] st2|e st2];
        red_state; [|by etrans].
      etrans; [done|]. etrans; [done|]. by apply same_file_kept.
    + red_state. etrans; [done|]. by apply same_file_kept.
Qed.

Lemma add_feed_kept agent_address feed_name :
  preserves files_kept (add_feed agent_address feed_name).
Proof.
  intros st. rewrite add_feed_unfold. cbv zeta.
  case_bool_decide; [reflexivity|]. by apply same_file_kept.
Qed.

Lemma add_feed_task_kept params : preserves files_kept (add_feed_task params).
Proof.
  intros st. rewrite add_feed_task_unfold. cbv zeta.
  destruct (p_agent_address _); [|reflexivity].
  destruct (p_feed_name _); [|reflexivity].
  case_bool_decide; [reflexivity|]. apply add_feed_kept.
Qed.

(** When [new_file] returns: [data_dir] was a string, the end-of-file flush
    (if a file was there) returned, and the writer of the new path is the
    open file; the file it replaces is let go. *)
Lemma new_file_ok data_dir now st ts' st' :
  new_file env data_dir now st = Ok ts' st' →
  ts' = now ∧
  ∃ d st1,
    data_dir = PStr d ∧
    (if file st is Some _ then end_file env st = Ok tt st1 else st1 = st) ∧
    dir_ready env (sub_dir_path env d now) = true ∧
    writer_opens env (file_path env (sub_dir_path env d now) now) = true ∧
    st' = with_file
            (Some (mkWriter (file_path env (sub_dir_path env d now) now) []))
            (with_released (released st1 ++ option_list (file st1))
               (with_filename (file_path env (sub_dir_path env d now) now)
                  st1)).
Proof.
  pose proof (new_file_cases data_dir now st) as H.
  destruct (if file st is Some _ then end_file env st else Ok tt st)
    as [[] st1|e st1] eqn:Hm; [|by rewrite H].
  destruct data_dir as [| |d]; try (by rewrite H). cbv zeta in H.
  destruct (dir_ready env _) eqn:Hd; [|by rewrite H].
  destruct (writer_opens env _) eqn:Ho; [|by rewrite H].
  rewrite H. intros [= <- <-]. split; [done|].
  exists d, st1. split_and!; try done.
  destruct (file st); [done | by injection Hm].
Qed.

(** Whatever [new_file] does, the writers let go so far stay, followed by
    at most one more, which ends with the end-of-processing frame. *)
Lemma new_file_released data_dir now st :
  let st' := final_state (new_file env data_dir now st) in
  released st' = released st ∨
  ∃ w, released st' = released st ++ [w] ∧
       last (w_frames w) = Some EndProcessing.
Proof.
  cbv zeta.
  pose proof (new_file_cases data_dir now st) as H.
  pose proof (end_file_kept st) as Hk.
  pose proof (end_file_marker st) as Hm.
  destruct (file st) as [w|] eqn:Hw.
  - destruct (end_file env st) as [[] st1|e st1]; red_state.
    2: { rewrite H. left. apply Hk. }
    destruct (Hm st1 eq_refl) as (w1 & Hw1 & Hl1).
    destruct Hk as (Hr & _).
    destruct data_dir as [| |d]; try (rewrite H; by left). cbv zeta in H.
    destruct (dir_ready env _); [|rewrite H; by left].
    destruct (writer_opens env _); rewrite H; red_state; [|by left].
    right. exists w1. by rewrite Hw1, Hr.
  - destruct data_dir as [| |d]; try (rewrite H; by left). cbv zeta in H.
    destruct (dir_ready env _); [|rewrite H; by left].
    destruct (writer_opens env _); rewrite H; red_state; [|by left].
    left. rewrite Hw. simpl. by rewrite app_nil_r.
Qed.

(** [new_file] never leaves the agent without a file it had. *)
Lemma new_file_file data_dir now st :
  is_Some (file st) →
  is_Some (file (final_state (new_file env data_dir now st))).
Proof.
  intros [w Hw].
  pose proof (new_file_cases data_dir now st) as H.
  pose proof (end_file_kept st) as (_ & _ & Hk & _).
  rewrite Hw in *.
  assert (Hs : is_Some (file (final_state (end_file env st)))).
  { destruct (file (final_state (end_file env st))); [by eexists | done]. }
  destruct (end_file env st) as [[] st1|e st1]; red_state;
    [|by rewrite H].
  destruct data_dir as [| |d]; try (by rewrite H). cbv zeta in H.
  destruct (dir_ready env _); [|by rewrite H].
  destruct (writer_opens env _); rewrite H; red_state; [by eexists | done].
Qed.

(** The files of a system: every writer let go ends with the
    end-of-processing frame, and while the process is in its loop a file is
    open and [data_dir] is a string. *)
Definition files_ok (s : Sys) : Prop :=
  Forall (fun w => last (w_frames w) = Some EndProcessing)
    (released (obj s)) ∧
  (∀ l, proc s = Sleeping l →
        is_Some (file (obj s)) ∧ ∃ d, data_dir l = PStr d).

Lemma kept_files_ok s st' :
  files_ok s → files_kept (obj s) st' → files_ok (mkSys st' (proc s)).
Proof.
  intros [Hc Hl] (Hr & _ & Hf & _). split; simpl.
  - by rewrite Hr.
  - intros l Hp. destruct (Hl l Hp) as [[w Hw] Hd]. split; [|done].
    rewrite Hw in Hf. destruct (file st'); [by eexists | done].
Qed.

Lemma new_file_closed data_dir now st :
  Forall (fun w => last (w_frames w) = Some EndProcessing) (released st) →
  Forall (fun w => last (w_frames w) = Some EndProcessing)
    (released (final_state (new_file env data_dir now st))).
Proof.
  intros Hc.
  destruct (new_file_released data_dir now st) as [->|(w & -> & Hw)];
    [done|].
  apply Forall_app. split; [done|]. by apply Forall_singleton.
Qed.

Lemma step_files_ok s ev : files_ok s → files_ok (step env s ev).1.
Proof.
  intros Hok. pose proof Hok as [Hc Hl].
  destruct ev; cbn [step].
  - (* Start *)
    destruct (proc s) eqn:Hp; [|done].
    unfold start_aggregate_enter. cbv zeta.
    set (st0 := with_aggregate true (obj s)).
    rewrite (bind_Ok _ _ (obj s) tt st0) by done.
    pose proof (new_file_closed
                  (default (PStr "data/") (p_data_dir
                     (default (mkStartParams None None None) params)))
                  now st0 Hc) as Hc'.
    pose proof (new_file_ok
                  (default (PStr "data/") (p_data_dir
                     (default (mkStartParams None None None) params)))
                  now st0) as Hn.
    unfold bind, ret.
    destruct (new_file env _ now st0) as [ts' st'|e st']; red_state.
    + destruct (Hn ts' st' eq_refl) as (_ & d & st1 & Hd & _ & _ & _ & ->).
      split; simpl; [done|]. intros l [= <-]. simpl.
      split; [by eexists | by exists d].
    + split; simpl; [done|]. done.
  - (* Wake *)
    destruct (proc s) as [|l] eqn:Hp; [done|].
    destruct (Hl l eq_refl) as [Hf [d Hd]].
    unfold start_aggregate_resume.
    destruct (time_per_file l) as [|tpf|]; [by split | | by split].
    cbv zeta. unfold bind at 1. unfold reads.
    destruct (aggregate (obj s)).
    + destruct (Qgtb _ _).
      2: { unfold ret. cbn. split; [done|]. simpl. intros ? [= <-]. eauto. }
      pose proof (new_file_closed (data_dir l) now' (obj s) Hc) as Hc'.
      pose proof (new_file_file (data_dir l) now' (obj s) Hf) as Hf'.
      unfold bind, ret.
      destruct (new_file env (data_dir l) now' (obj s)) as [ts' st'|e st'];
        red_state; (split; simpl; [done|]); [|done].
      intros ? [= <-]. simpl. eauto.
    + pose proof (end_file_kept (obj s)) as (Hr & _).
      unfold bind, ret.
      destruct (end_file env (obj s)) as [[] st'|e st']; red_state;
        (split; simpl; [by rewrite Hr | done]).
  - (* Stop *)
    apply kept_files_ok; [done|]. by apply same_file_kept.
  - apply kept_files_ok; [done|]. apply data_handler_kept.
  - apply kept_files_ok; [done|]. apply add_feed_task_kept.
  - apply kept_files_ok; [done|]. apply add_feed_kept.
Qed.

Lemma reachable_files_ok s : reachable env s → files_ok s.
Proof.
  induction 1 as [|s ev _ IH].
  - split; [by apply Forall_nil | done].
  - by apply step_files_ok.
Qed.

(** ** The flag *)

Definition flag_kept (st st' : State) : Prop := aggregate st' = aggregate st.

#[local] Instance flag_kept_refl : Reflexive flag_kept.
Proof. by intros st. Qed.

#[local] Instance flag_kept_trans : Transitive flag_kept.
Proof. unfold flag_kept. intros st1 st2 st3 H1 H2. congruence. Qed.

Lemma flush_items_flag items : preserves flag_kept (flush_items env items).
Proof.
  induction items as [|[k v] items IH]; simpl.
  - apply preserves_ret, _.
  - apply preserves_bind; [apply _ | | done].
    destruct (is_nil v); [apply preserves_ret, _|].
    apply preserves_bind; [apply _ | |].
    + intros st. apply write_frame_to_file_frame.
    + intros _. by apply preserves_modify.
Qed.

Lemma file_call_flag frame : preserves flag_kept (file_call env frame).
Proof.
  intros st. unfold file_call. destruct (file st) as [w|]; [|done].
  by destruct (sink_accepts env w frame).
Qed.

Lemma end_file_flag : preserves flag_kept (end_file env).
Proof.
  unfold end_file. intros st. unfold bind at 1. unfold reads.
  apply (bind_related flag_kept); [apply flush_items_flag|].
  intros _. apply file_call_flag.
Qed.

Lemma new_file_flag data_dir now :
  preserves flag_kept (new_file env data_dir now).
Proof.
  intros st.
  pose proof (new_file_cases data_dir now st) as H.
  assert (Hm : flag_kept st
                 (final_state
                    (if file st is Some _ then end_file env st else Ok tt st))).
  { destruct (file st); [apply end_file_flag | done]. }
  destruct (if file st is Some _ then end_file env st else Ok tt st)
    as [[] st1|e st1]; red_state; [|by rewrite H].
  destruct data_dir as [| |d]; try (by rewrite H). cbv zeta in H.
  destruct (dir_ready env _); [|by rewrite H].
  by destruct (writer_opens env _); rewrite H.
Qed.

(** ** The frames of a flush *)

(** The loop of [end_file], when it returns: a file was open if there was
    anything to write, and it got one frame for each buffer that was not
    empty, in the order of the buffer map. *)
Lemma flush_items_frames items st st' :
  flush_items env items st = Ok tt st' →
  ∃ frames,
    Forall2 (fun kv frame => make_frame kv.1 kv.2 = inr frame)
      (filter (fun kv => is_nil kv.2 = false) items) frames ∧
    match file st with
    | Some w =>
        file st' = Some (mkWriter (w_filename w) (w_frames w ++ frames))
    | None => frames = [] ∧ file st' = None
    end.
Proof.
  revert st. induction items as [|[k v] items IH]; intros st.
  - simpl. unfold ret. intros [= <-]. exists []. split; [done|].
    destruct (file st) as [w|]; [|done]. by rewrite app_nil_r, writer_eta.
  - cbn [flush_items]. destruct v as [|p v]; cbn [is_nil].
    + rewrite (bind_Ok _ _ st tt st) by done.
      intros H. destruct (IH st H) as (frames & HF & Hw).
      exists frames. by split.
    + unfold bind at 1. unfold bind at 1.
      destruct (write_frame_to_file_cases env k (p :: v) st)
        as [(e & -> & _)|(w & frame & Hw & Hf & _ & ->)]; [done|].
      unfold set_buffer, modify. intros H.
      destruct (IH _ H) as (frames & HF & Hw'). red_state.
      exists (frame :: frames). split.
      * rewrite filter_cons_True by done. by constructor.
      * rewrite Hw. rewrite Hw'. simpl. by rewrite <- app_assoc.
Qed.

(** ** The turns of the process *)

Lemma step_start_idle s params now :
  proc s = Idle →
  step env s (Start params now)
  = match new_file env
            (default (PStr "data/")
               (p_data_dir (default (mkStartParams None None None) params)))
            now (with_aggregate true (obj s)) with
    | Ok ts' st' =>
        (mkSys st'
           (Sleeping
              (mkLocals ts'
                 (default (PNum 3600)
                    (p_time_per_file
                       (default (mkStartParams None None None) params)))
                 (default (PStr "data/")
                    (p_data_dir
                       (default (mkStartParams None None None) params))))),
         Returned)
    | Raise e st' => (mkSys st' Idle, Raised e)
    end.
Proof.
  intros Hp. cbn [step]. rewrite Hp.
  unfold start_aggregate_enter. cbv zeta.
  rewrite (bind_Ok _ _ (obj s) tt (with_aggregate true (obj s))) by done.
  unfold bind, ret. by destruct (new_file env _ now _).
Qed.

Lemma step_wake_early s l t now now' :
  proc s = Sleeping l → aggregate (obj s) = true →
  time_per_file l = PNum t → Qgtb (now - ts l) t = false →
  step env s (Wake now now') = (s, Returned).
Proof.
  intros Hp Hrun Ht Hq. cbn [step]. rewrite Hp.
  unfold start_aggregate_resume. rewrite Ht. cbv zeta.
  unfold bind at 1. unfold reads. rewrite Hrun, Hq.
  unfold ret. rewrite <- Hp. by destruct s.
Qed.

Lemma step_wake_untimed s l now now' :
  proc s = Sleeping l → (∀ t, time_per_file l ≠ PNum t) →
  step env s (Wake now now') = (mkSys (obj s) Idle, Raised TypeError).
Proof.
  intros Hp Ht. cbn [step]. rewrite Hp.
  unfold start_aggregate_resume.
  destruct (time_per_file l) as [|t|]; [done | by destruct (Ht t) | done].
Qed.

Lemma step_wake_expired s l t now now' :
  proc s = Sleeping l → aggregate (obj s) = true →
  time_per_file l = PNum t → Qgtb (now - ts l) t = true →
  step env s (Wake now now')
  = match new_file env (data_dir l) now' (obj s) with
    | Ok ts' st' =>
        (mkSys st' (Sleeping (mkLocals ts' (PNum t) (data_dir l))), Returned)
    | Raise e st' => (mkSys st' Idle, Raised e)
    end.
Proof.
  intros Hp Hrun Ht Hq. cbn [step]. rewrite Hp.
  unfold start_aggregate_resume. rewrite Ht. cbv zeta.
  unfold bind at 1. unfold reads. rewrite Hrun, Hq.
  unfold bind, ret. by destruct (new_file env _ now' _).
Qed.

Lemma step_wake_stopped s l t now now' :
  proc s = Sleeping l → aggregate (obj s) = false →
  time_per_file l = PNum t →
  step env s (Wake now now')
  = match end_file env (obj s) with
    | Ok _ st' => (mkSys st' Idle, Result true "Acquisition exited cleanly.")
    | Raise e st' => (mkSys st' Idle, Raised e)
    end.
Proof.
  intros Hp Hrun Ht. cbn [step]. rewrite Hp.
  unfold start_aggregate_resume. rewrite Ht. cbv zeta.
  unfold bind at 1. unfold reads. rewrite Hrun.
  unfold bind, ret. by destruct (end_file env (obj s)) as [[] ?|? ?].
Qed.

(** What an event does to the list of the writers let go. *)
Lemma step_released s ev :
  ∃ ws, released (obj (step env s ev).1) = released (obj s) ++ ws ∧
        (ws = [] ∨ ∃ w, ws = [w] ∧ last (w_frames w) = Some EndProcessing).
Proof.
  assert (Hk : ∀ st', files_kept (obj s) st' →
            ∃ ws, released st' = released (obj s) ++ ws ∧
                  (ws = [] ∨
                   ∃ w, ws = [w] ∧ last (w_frames w) = Some EndProcessing)).
  { intros st' (Hr & _). exists []. rewrite app_nil_r. by split; [|left]. }
  assert (Hn : ∀ data_dir now st,
            released st = released (obj s) →
            ∃ ws, released (final_state (new_file env data_dir now st))
                  = released (obj s) ++ ws ∧
                  (ws = [] ∨
                   ∃ w, ws = [w] ∧ last (w_frames w) = Some EndProcessing)).
  { intros data_dir now st Hst.
    destruct (new_file_released data_dir now st) as [Hr|(w & Hr & Hw)];
      rewrite Hr, Hst.
    - exists []. rewrite app_nil_r. by split; [|left].
    - exists [w]. split; [done|]. right. by exists w. }
  destruct ev.
  - destruct (proc s) eqn:Hp;
      [|cbn [step]; rewrite Hp; apply Hk; reflexivity].
    rewrite step_start_idle by done.
    specialize (Hn (default (PStr "data/")
                      (p_data_dir
                         (default (mkStartParams None None None) params)))
                  now (with_aggregate true (obj s)) eq_refl).
    by destruct (new_file env _ now _).
  - destruct (proc s) as [|l] eqn:Hp;
      [cbn [step]; rewrite Hp; apply Hk; reflexivity|].
    destruct (time_per_file l) as [|t|] eqn:Ht.
    + rewrite (step_wake_untimed s l) by (done || congruence).
      apply Hk. reflexivity.
    + destruct (aggregate (obj s)) eqn:Hrun.
      * destruct (Qgtb (now - ts l) t) eqn:Hq.
        -- rewrite (step_wake_expired s l t) by done.
           specialize (Hn (data_dir l) now' (obj s) eq_refl).
           by destruct (new_file env _ now' _).
        -- rewrite (step_wake_early s l t) by done. apply Hk. reflexivity.
      * rewrite (step_wake_stopped s l t) by done.
        pose proof (Hk _ (end_file_kept (obj s))) as H.
        by destruct (end_file env (obj s)) as [[] ?|? ?].
    + rewrite (step_wake_untimed s l) by (done || congruence).
      apply Hk. reflexivity.
  - apply Hk. by apply same_file_kept.
  - apply Hk, data_handler_kept.
  - apply Hk, add_feed_task_kept.
  - apply Hk, add_feed_kept.
Qed.

(** When [end_file] returns: the frames of the buffers that were not
    empty, in the order of the buffer map, then the end-of-processing
    frame, all in the file that was open. *)
Lemma end_file_frames st st' :
  end_file env st = Ok tt st' →
  ∃ w frames,
    file st = Some w ∧
    Forall2 (fun kv frame => make_frame kv.1 kv.2 = inr frame)
      (filter (fun kv => is_nil kv.2 = false) (buffers st)) frames ∧
    file st'
    = Some (mkWriter (w_filename w) (w_frames w ++ frames ++ [EndProcessing])).
Proof.
  unfold end_file. unfold bind at 1. unfold reads. unfold bind.
  destruct (flush_items env (buffers st) st) as [[] st2|e2 st2] eqn:Hfl;
    [|done].
  destruct (flush_items_frames _ _ _ Hfl) as (frames & HF & Hw2).
  unfold file_call. destruct (file st) as [w|] eqn:Hw.
  - rewrite Hw2. destruct (sink_accepts env _ EndProcessing); [|done].
    intros [= <-]. red_state. exists w, frames. split_and!; try done.
    simpl. by rewrite <- app_assoc.
  - destruct Hw2 as [_ ->]. done.
Qed.

Lemma data_handler_flag d current_time :
  preserves flag_kept (_data_handler env d current_time).
Proof.
  intros st. destruct (aggregate st) eqn:Hrun.
  2: { assert (H : _data_handler env d current_time st = Ok tt st).
       { unfold _data_handler. unfold_monad. by rewrite Hrun. }
       by rewrite H. }
  destruct d as [data feed|data feed].
  - rewrite data_handler_buffered by done.
    apply write_frame_to_file_frame.
  - rewrite data_handler_unbuffered by done. cbv zeta.
    set (addr := address feed).
    destruct (Dict.get (buffers st) addr) as [b|]; [|done].
    set (st1 := if is_nil b then _ else st).
    assert (H1 : flag_kept st st1) by (subst st1; by destruct b).
    destruct (buffer_start_times st1 !! addr) as [t0|]; [|done].
    destruct (Qgtb _ _); [|done].
    pose proof (write_frame_to_file_frame env addr b st1)
      as (_ & _ & H2 & _).
    unfold flag_kept in *.
    destruct (write_frame_to_file env addr b st1) as [[] st2|e st2];
      red_state; congruence.
Qed.

Lemma add_feed_flag agent_address feed_name :
  preserves flag_kept (add_feed agent_address feed_name).
Proof.
  intros st. rewrite add_feed_unfold. cbv zeta. by case_bool_decide.
Qed.

Lemma add_feed_task_flag params : preserves flag_kept (add_feed_task params).
Proof.
  intros st. rewrite add_feed_task_unfold. cbv zeta.
  destruct (p_agent_address _); [|done].
  destruct (p_feed_name _); [|done].
  case_bool_decide; [done|]. apply add_feed_flag.
Qed.

(** ** Subscriptions *)

(** The feed an event asks to subscribe to. *)
Definition requested (ev : Event) : option (string * string) :=
  match ev with
  | AddFeed agent_address feed_name => Some (agent_address, feed_name)
  | AddFeedTask params =>
      let params := default (mkFeedParams None None) params in
      match p_agent_address params, p_feed_name params with
      | Some agent_address, Some feed_name => Some (agent_address, feed_name)
      | _, _ => None
      end
  | _ => None
  end.

(** ... and whether it is new to the agent. *)
Definition newly_subscribed (st : State) (ev : Event)
    : list (string * string) :=
  match requested ev with
  | Some (agent_address, feed_name) =>
      if bool_decide
           (feed_address_of agent_address feed_name ∈ subscribed_feeds st)
      then []
      else [(agent_address, feed_name)]
  | None => []
  end.

Definition subs_kept (st st' : State) : Prop :=
  subscribed_feeds st' = subscribed_feeds st ∧
  registrations st' = registrations st.

Lemma quiet_subs_kept st st' : quiet st st' → subs_kept st st'.
Proof. by intros (? & ? & _). Qed.

Lemma data_handler_subs d current_time :
  preserves subs_kept (_data_handler env d current_time).
Proof.
  intros st. destruct (aggregate st) eqn:Hrun.
  2: { assert (H : _data_handler env d current_time st = Ok tt st).
       { unfold _data_handler. unfold_monad. by rewrite Hrun. }
       by rewrite H. }
  destruct d as [data feed|data feed].
  - apply quiet_subs_kept, data_handler_buffered_quiet.
  - rewrite data_handler_unbuffered by done. cbv zeta.
    set (addr := address feed).
    destruct (Dict.get (buffers st) addr) as [b|]; [|done].
    set (st1 := if is_nil b then _ else st).
    assert (H1 : subs_kept st st1) by (subst st1; by destruct b).
    destruct (buffer_start_times st1 !! addr) as [t0|]; [|done].
    destruct (Qgtb _ _); [|done].
    pose proof (write_frame_to_file_frame env addr b st1)
      as (_ & _ & _ & H2 & H3 & _).
    destruct H1 as [H1 H1'].
    destruct (write_frame_to_file env addr b st1) as [[] st2|e st2];
      red_state; split; red_state; congruence.
Qed.

Lemma step_subs_kept s ev :
  requested ev = None → subs_kept (obj s) (obj (step env s ev).1).
Proof.
  intros Hreq. destruct ev; cbn [step].
  - destruct (proc s); [|done].
    pose proof (start_aggregate_enter_quiet env params now (obj s)) as Hq.
    apply quiet_subs_kept in Hq.
    by destruct (start_aggregate_enter _ _ _ _).
  - destruct (proc s) as [|l]; [done|].
    pose proof (start_aggregate_resume_quiet env l now now' (obj s)) as Hq.
    apply quiet_subs_kept in Hq.
    by destruct (start_aggregate_resume _ _ _ _ _) as [[l'|r] st|e st].
  - done.
  - apply data_handler_subs.
  - rewrite add_feed_task_unfold. cbv zeta.
    simpl in Hreq.
    destruct (p_agent_address _); [|done].
    destruct (p_feed_name _); [done|done].
  - done.
Qed.

(** ** Deliveries that go through *)

Lemma write_frame_to_file_ok feed_address agent_address feed_name buffer st :
  split_address feed_address = inr (agent_address, feed_name) →
  is_Some (file st) →
  (∀ w frame, sink_accepts env w frame = true) →
  ∃ st', write_frame_to_file env feed_address buffer st = Ok tt st'.
Proof.
  intros Hs [w Hw] Hacc. rewrite write_frame_to_file_unfold.
  destruct (make_frame_spec _ _ _ buffer Hs) as (tods & tss & -> & _).
  unfold file_call. red_state. rewrite Hw, Hacc. eauto.
Qed.

(** ** The handler of the agent_activity feed *)

(** One entry of [agent_data["feeds"]], with the keys the handler reads;
    [f_aggregate] is the truth value of
    [feed['agg_params'].get("aggregate", False)], [None] when the key is
    absent. *)
Record FeedInfo := mkFeedInfo {
  f_agent_address : string;
  f_feed_name : string;
  f_aggregate : option bool;
}.

(** The loop of lines 123-125. *)
Fixpoint subscribe_flagged (feeds : list FeedInfo) : M unit :=
  match feeds with
  | [] => ret tt
  | feed :: rest =>
      _ <- (if default false (f_aggregate feed)
            then add_feed (f_agent_address feed) (f_feed_name feed)
            else ret tt) ;;
      subscribe_flagged rest
  end.

(** The callback registered by [initialize]; [feeds] is
    [agent_data.get("feeds")]. *)
Definition _new_agent_handler (action : string)
    (feeds : option (list FeedInfo)) : M unit :=
  if String.eqb action "removed" then ret tt
  else
    match feeds with
    | None => ret tt
    | Some feeds => subscribe_flagged feeds
    end.

(** The feeds of a message that ask to be aggregated, as subscription
    requests. *)
Definition flagged (feed : FeedInfo) : Prop :=
  default false (f_aggregate feed) = true.

#[local] Instance flagged_dec feed : Decision (flagged feed).
Proof. unfold flagged. apply _. Defined.

Definition requests_of (action : string) (feeds : option (list FeedInfo))
    : list Event :=
  if String.eqb action "removed" then []
  else (fun feed => AddFeed (f_agent_address feed) (f_feed_name feed))
       <$> filter flagged (default [] feeds).

Lemma add_feed_returns agent_address feed_name st :
  add_feed agent_address feed_name st
  = Ok tt (final_state (add_feed agent_address feed_name st)).
Proof. rewrite add_feed_unfold. cbv zeta. by case_bool_decide. Qed.

Lemma subscribe_flagged_run feeds s :
  let evs := (fun feed => AddFeed (f_agent_address feed) (f_feed_name feed))
             <$> filter flagged feeds in
  subscribe_flagged feeds (obj s) = Ok tt (obj (run env s evs).1) ∧
  proc (run env s evs).1 = proc s ∧
  Forall (fun o => o = Returned) (run env s evs).2.
Proof.
  cbv zeta. revert s. induction feeds as [|feed feeds IH]; intros s.
  - by split_and!.
  - cbn [subscribe_flagged].
    destruct (decide (flagged feed)) as [Hfl|Hfl].
    + rewrite filter_cons_True by done. rewrite fmap_cons. cbn [run step].
      unfold flagged in Hfl. rewrite Hfl.
      rewrite (bind_Ok _ _ (obj s) tt
                 (final_state (add_feed (f_agent_address feed)
                                 (f_feed_name feed) (obj s))))
        by apply add_feed_returns.
      rewrite add_feed_returns. cbn [final_state outcome_of].
      set (s1 := mkSys _ (proc s)).
      destruct (IH s1) as (H1 & H2 & H3).
      destruct (run env s1 _) as [s2 os]. cbn [fst snd] in *.
      split_and!; [done | done | by constructor].
    + rewrite filter_cons_False by done.
      unfold flagged in Hfl. apply not_true_is_false in Hfl. rewrite Hfl.
      rewrite (bind_Ok _ _ (obj s) tt (obj s)) by done. apply IH.
Qed.

Lemma add_feed_subscribed agent_address feed_name st a :
  a ∈ subscribed_feeds (final_state (add_feed agent_address feed_name st))
  ↔ a ∈ subscribed_feeds st ∨ a = feed_address_of agent_address feed_name.
Proof.
  rewrite add_feed_unfold. cbv zeta. case_bool_decide as Hin; red_state.
  - split; [by left | intros [?| ->]; done].
  - rewrite elem_of_app, list_elem_of_singleton. done.
Qed.

Lemma subscribe_flagged_subscribed feeds st a :
  a ∈ subscribed_feeds (final_state (subscribe_flagged feeds st))
  ↔ a ∈ subscribed_feeds st ∨
    ∃ feed, feed ∈ feeds ∧ flagged feed ∧
            a = feed_address_of (f_agent_address feed) (f_feed_name feed).
Proof.
  revert st. induction feeds as [|feed feeds IH]; intros st.
  - simpl. split; [by left | intros [?|(feed & Hin & _)]; [done|]].
    by apply elem_of_nil in Hin.
  - cbn [subscribe_flagged].
    destruct (default false (f_aggregate feed)) eqn:Hfl.
    + rewrite (bind_Ok _ _ st tt
                 (final_state (add_feed (f_agent_address feed)
                                 (f_feed_name feed) st)))
        by apply add_feed_returns.
      rewrite IH, add_feed_subscribed. split.
      * intros [[?| ->]|(feed' & Hin & Hf & ->)]; [by left | |].
        -- right. exists feed. split_and!; [apply list_elem_of_here|done|done].
        -- right. exists feed'.
           split_and!; [by apply list_elem_of_further|done|done].
      * intros [?|(feed' & Hin & Hf & ->)]; [by left; left|].
        apply elem_of_cons in Hin as [->|Hin]; [left; by right|].
        right. by exists feed'.
    + rewrite (bind_Ok _ _ st tt st) by done. rewrite IH. split.
      * intros [?|(feed' & Hin & Hf & ->)]; [by left|].
        right. exists feed'.
        split_and!; [by apply list_elem_of_further|done|done].
      * intros [?|(feed' & Hin & Hf & ->)]; [by left|].
        apply elem_of_cons in Hin as [->|Hin].
        -- unfold flagged in Hf. congruence.
        -- right. by exists feed'.
Qed.

(** With every flagged feed subscribed already, the loop changes
    nothing. *)
Lemma subscribe_flagged_done feeds st :
  (∀ feed, feed ∈ feeds → flagged feed →
           feed_address_of (f_agent_address feed) (f_feed_name feed)
           ∈ subscribed_feeds st) →
  subscribe_flagged feeds st = Ok tt st.
Proof.
  induction feeds as [|feed feeds IH]; intros Hall; [done|].
  cbn [subscribe_flagged].
  assert (H1 : (if default false (f_aggregate feed)
                then add_feed (f_agent_address feed) (f_feed_name feed)
                else ret tt) st = Ok tt st).
  { destruct (default false (f_aggregate feed)) eqn:Hfl; [|done].
    rewrite add_feed_unfold. cbv zeta. rewrite bool_decide_true; [done|].
    apply Hall; [apply list_elem_of_here | done]. }
  rewrite (bind_Ok _ _ st tt st) by done.
  apply IH. intros feed' Hin. apply Hall. by apply list_elem_of_further.
Qed.

(** ** The order of the samples of one stream *)

(** The samples of feed address [a] under key [k], in the order of the
    list. *)
Definition in_stream (a k : string) (x : Sample) : Prop :=
  x.1.1.1 = a ∧ x.1.1.2 = k.

#[local] Instance in_stream_dec a k x : Decision (in_stream a k x).
Proof. unfold in_stream. apply _. Defined.























(** ** Further properties, stated *)

(** X3 — No delivery, subscription or stop request opens, closes or renames
    a file or takes a frame out of the open one: the set of files changes
    only when the process is started, or wakes up with the flag set and
    more than [time_per_file] seconds on the clock since the file was
    started. *)
Theorem files_change_only_at_rotation s ev :
  files_kept (obj s) (obj (step env s ev).1) ∨
  (∃ params now, ev = Start params now ∧ proc s = Idle) ∨
  (∃ now now' l t,
      ev = Wake now now' ∧ proc s = Sleeping l ∧
      aggregate (obj s) = true ∧ time_per_file l = PNum t ∧
      (t < now - ts l)%Q).
Proof.
  destruct ev; cbn [step].
  - destruct (proc s) eqn:Hp.
    + right. left. by exists params, now.
    + left. reflexivity.
  - destruct (proc s) as [|l] eqn:Hp; [left; reflexivity|].
    unfold start_aggregate_resume.
    destruct (time_per_file l) as [|t|] eqn:Ht;
      [left; reflexivity | | left; reflexivity].
    cbv zeta. unfold bind at 1. unfold reads.
    destruct (aggregate (obj s)) eqn:Hrun.
    + destruct (Qgtb (now - ts l) t) eqn:Hq.
      * right. right. exists now, now', l, t.
        split_and!; try done. by apply Qgtb_true.
      * left. unfold ret. reflexivity.
    + left. pose proof (end_file_kept (obj s)) as Hk.
      unfold bind, ret. by destruct (end_file env (obj s)) as [[] ?|? ?].
  - left. by apply same_file_kept.
  - left. apply data_handler_kept.
  - left. apply add_feed_task_kept.
  - left. apply add_feed_kept.
Qed.

(** X4 — A rotation. When the loop wakes up with the flag set and the
    file's time over, and the turn goes through, the file that was open has
    received one frame for each buffer that was not empty, in the order of
    subscription, and the end-of-processing frame after them; it is let
    go, every buffer is empty, and a writer with no frame yet, on the path
    made from [data_dir] and the clock, is the open file. *)
Theorem rotation_closes_and_opens s l t now now' :
  reachable env s →
  proc s = Sleeping l →
  aggregate (obj s) = true →
  time_per_file l = PNum t →
  (t < now - ts l)%Q →
  (step env s (Wake now now')).2 = Returned →
  let s' := (step env s (Wake now now')).1 in
  ∃ w frames d,
    file (obj s) = Some w ∧ data_dir l = PStr d ∧
    Forall2 (fun kv frame => make_frame kv.1 kv.2 = inr frame)
      (filter (fun kv => is_nil kv.2 = false) (buffers (obj s))) frames ∧
    released (obj s')
    = released (obj s)
        ++ [mkWriter (w_filename w) (w_frames w ++ frames ++ [EndProcessing])] ∧
    file (obj s')
    = Some (mkWriter (file_path env (sub_dir_path env d now') now') []) ∧
    filename (obj s') = file_path env (sub_dir_path env d now') now' ∧
    buffers (obj s') = emptied (buffers (obj s)) ∧
    aggregate (obj s') = true ∧
    proc s' = Sleeping (mkLocals now' (PNum t) (PStr d)).
Proof.
  intros Hreach Hp Hrun Ht Hlt.
  pose proof (wf_NoDup_keys _ (reachable_wf env s Hreach)) as Hnd.
  destruct (reachable_files_ok s Hreach) as [_ Hl].
  destruct (Hl l Hp) as [[w Hw] [d Hd]].
  apply Qgtb_true in Hlt.
  rewrite (step_wake_expired s l t now now' Hp Hrun Ht Hlt).
  pose proof (new_file_ok (data_dir l) now' (obj s)) as Hn.
  destruct (new_file env (data_dir l) now' (obj s)) as [ts' st'|e st'];
    [|done].
  intros _. cbn [fst obj proc].
  destruct (Hn ts' st' eq_refl) as (-> & d' & st1 & Hd' & He & _ & _ & ->).
  rewrite Hd in Hd'. injection Hd' as <-. rewrite Hw in He.
  pose proof (end_file_account env (obj s) Hnd) as Ha.
  rewrite He in Ha. destruct Ha as (Hb & Hr & Hagg & _).
  destruct (end_file_frames _ _ He) as (w' & frames & Hw' & HF & Hf1).
  rewrite Hw in Hw'. injection Hw' as <-.
  exists w, frames, d. red_state. split_and!; try done.
  - by rewrite Hr, Hf1.
  - congruence.
  - by rewrite Hd.
Qed.

(** X5 — In every system the agent can reach, also after exceptions, each
    file that is no longer written to ends with the end-of-processing
    frame, and no event takes a file off that list or changes one on it:
    the list after an event is the list before it, with at most one file
    added at its end. *)
Theorem closed_files_end_marked s :
  reachable env s →
  Forall (fun w => last (w_frames w) = Some EndProcessing)
    (released (obj s)) ∧
  ∀ ev, released (obj (step env s ev).1) = released (obj s) ∨
        ∃ w, released (obj (step env s ev).1) = released (obj s) ++ [w].
Proof.
  intros Hreach. split.
  - apply (reachable_files_ok s Hreach).
  - intros ev.
    destruct (step_released s ev) as (ws & -> & [->|(w & -> & _)]).
    + left. apply app_nil_r.
    + right. by exists w.
Qed.

(** X6 — While the process is in its loop a file is open and [data_dir] is
    a string, in every system the agent can reach; and once a file is
    open, no event, returning or raising, leaves the agent without one. *)
Theorem file_open_in_loop :
  (∀ s l, reachable env s → proc s = Sleeping l →
          is_Some (file (obj s)) ∧ ∃ d, data_dir l = PStr d) ∧
  (∀ s ev, is_Some (file (obj s)) →
           is_Some (file (obj (step env s ev).1))).
Proof.
  split.
  - intros s l Hreach Hp. by apply (reachable_files_ok s Hreach).
  - intros s ev Hf.
    assert (Hk : ∀ st', files_kept (obj s) st' → is_Some (file st')).
    { intros st' (_ & _ & Hn & _). destruct Hf as [w Hw]. rewrite Hw in Hn.
      destruct (file st'); [by eexists | done]. }
    destruct ev; cbn [step].
    + destruct (proc s); [|done].
      unfold start_aggregate_enter. cbv zeta.
      rewrite (bind_Ok _ _ (obj s) tt (with_aggregate true (obj s))) by done.
      pose proof (new_file_file
                    (default (PStr "data/") (p_data_dir
                       (default (mkStartParams None None None) params)))
                    now (with_aggregate true (obj s)) Hf) as Hn.
      revert Hn. unfold bind, ret.
      by destruct (new_file env _ now _) as [? ?|? ?].
    + destruct (proc s) as [|l]; [done|].
      unfold start_aggregate_resume.
      destruct (time_per_file l) as [|t|]; [done | | done].
      cbv zeta. unfold bind at 1. unfold reads.
      destruct (aggregate (obj s)).
      * destruct (Qgtb _ _); [|done].
        pose proof (new_file_file (data_dir l) now' (obj s) Hf) as Hn.
        revert Hn. unfold bind, ret.
        by destruct (new_file env _ now' _) as [? ?|? ?].
      * pose proof (Hk _ (end_file_kept (obj s))) as Hn.
        revert Hn. unfold bind, ret.
        by destruct (end_file env (obj s)) as [[] ?|? ?].
    + done.
    + apply Hk, data_handler_kept.
    + apply Hk, add_feed_task_kept.
    + apply Hk, add_feed_kept.
Qed.


(** X8 — The flag is set by a start of the process, before anything that
    can fail, and cleared by a stop request, and by nothing else: no
    delivery, subscription or turn of the loop changes it, returning or
    raising. So a process that ends with an exception leaves the flag
    set. *)
Theorem flag_follows_requests s ev :
  aggregate (obj (step env s ev).1)
  = match ev with
    | Start _ _ => if proc s is Idle then true else aggregate (obj s)
    | Stop => false
    | _ => aggregate (obj s)
    end.
Proof.
  destruct ev.
  - destruct (proc s) eqn:Hp; [|cbn [step]; by rewrite Hp].
    rewrite step_start_idle by done.
    pose proof (new_file_flag
                  (default (PStr "data/")
                     (p_data_dir
                        (default (mkStartParams None None None) params)))
                  now (with_aggregate true (obj s))) as H.
    by destruct (new_file env _ now _).
  - destruct (proc s) as [|l] eqn:Hp; [cbn [step]; by rewrite Hp|].
    destruct (time_per_file l) as [|t|] eqn:Ht.
    + by rewrite (step_wake_untimed s l) by (done || congruence).
    + destruct (aggregate (obj s)) eqn:Hrun.
      * destruct (Qgtb (now - ts l) t) eqn:Hq.
        -- rewrite (step_wake_expired s l t) by done.
           pose proof (new_file_flag (data_dir l) now' (obj s)) as H.
           unfold flag_kept in H. rewrite Hrun in H.
           by destruct (new_file env _ now' _).
        -- by rewrite (step_wake_early s l t) by done.
      * rewrite (step_wake_stopped s l t) by done.
        pose proof (end_file_flag (obj s)) as H.
        unfold flag_kept in H. rewrite Hrun in H.
        by destruct (end_file env (obj s)) as [[] ?|? ?].
    + by rewrite (step_wake_untimed s l) by (done || congruence).
  - done.
  - apply data_handler_flag.
  - apply add_feed_task_flag.
  - apply add_feed_flag.
Qed.

(** The event [ev] with [v] as the [time_per_frame] of a start request
    ([None]: the key is absent). *)
Definition with_time_per_frame (v : option PyVal) (ev : Event) : Event :=
  match ev with
  | Start params now =>
      let params := default (mkStartParams None None None) params in
      Start (Some (mkStartParams (p_time_per_file params) v
                     (p_data_dir params))) now
  | _ => ev
  end.

(** X9 — The [time_per_frame] parameter of the process has no effect:
    whatever value a start request carries for it, or none, every run gives
    the same outcomes and ends in the same system. When a frame is written
    depends on the feed's [buffer_time] alone. *)
Theorem time_per_frame_is_ignored v s evs :
  run env s (with_time_per_frame v <$> evs) = run env s evs.
Proof.
  revert s. induction evs as [|ev evs IH]; intros s; [done|].
  rewrite fmap_cons. cbn [run].
  assert (H : step env s (with_time_per_frame v ev) = step env s ev).
  { destruct ev; reflexivity. }
  rewrite H. destruct (step env s ev) as [s' o]. by rewrite IH.
Qed.

(** X10 — Subscriptions are made by requests only, and never undone: an
    event adds to the list of subscribed feeds, to the registrations with
    the agent and to the buffer map exactly the feed it asks for, if that
    feed is new, and nothing otherwise; the new feed comes last, with an
    empty buffer, and nothing else of the object changes. *)
Theorem subscriptions_follow_requests s ev :
  reachable env s →
  let st := obj s in
  let st' := obj (step env s ev).1 in
  let new := newly_subscribed st ev in
  registrations st' = registrations st ++ new ∧
  subscribed_feeds st'
  = subscribed_feeds st ++ ((fun r => feed_address_of r.1 r.2) <$> new) ∧
  Dict.keys (buffers st') = subscribed_feeds st' ∧
  (new ≠ [] →
   buffers st'
   = buffers st ++ ((fun r => (feed_address_of r.1 r.2, [])) <$> new) ∧
   buffer_start_times st' = buffer_start_times st ∧
   aggregate st' = aggregate st ∧
   file st' = file st ∧
   released st' = released st ∧
   filename st' = filename st ∧
   serializer_calls st' = serializer_calls st).
Proof.
  intros Hreach. cbv zeta.
  pose proof (reachable_wf env s Hreach) as Hwf.
  pose proof (step_wf env s ev Hwf) as (Hk' & _).
  destruct Hwf as (Hk & _).
  assert (Hadd : ∀ agent_address feed_name,
            let st' := final_state (add_feed agent_address feed_name (obj s)) in
            let new :=
              if bool_decide (feed_address_of agent_address feed_name
                              ∈ subscribed_feeds (obj s))
              then [] else [(agent_address, feed_name)] in
            registrations st' = registrations (obj s) ++ new ∧
            subscribed_feeds st'
            = subscribed_feeds (obj s)
                ++ ((fun r => feed_address_of r.1 r.2) <$> new) ∧
            (new ≠ [] →
             buffers st'
             = buffers (obj s)
                 ++ ((fun r => (feed_address_of r.1 r.2, [])) <$> new) ∧
             buffer_start_times st' = buffer_start_times (obj s) ∧
             aggregate st' = aggregate (obj s) ∧
             file st' = file (obj s) ∧
             released st' = released (obj s) ∧
             filename st' = filename (obj s) ∧
             serializer_calls st' = serializer_calls (obj s))).
  { intros agent_address feed_name. cbv zeta. rewrite add_feed_unfold.
    cbv zeta. case_bool_decide as Hin; red_state.
    - rewrite !app_nil_r. by split_and!.
    - split_and!; try done. intros _. split_and!; try done.
      apply Dict.set_fresh. by rewrite Hk. }
  destruct (requested ev) as [[agent_address feed_name]|] eqn:Hreq.
  - unfold newly_subscribed. rewrite Hreq.
    destruct (Hadd agent_address feed_name) as (H1 & H2 & H3).
    destruct ev; try done.
    + (* the task *)
      cbn [step obj fst] in *. simpl in Hreq.
      rewrite add_feed_task_unfold in *. cbv zeta in *.
      destruct (p_agent_address _) as [a|]; [|done].
      destruct (p_feed_name _) as [f|]; [|done].
      injection Hreq as -> ->.
      case_bool_decide as Hin; red_state.
      * rewrite !app_nil_r. by split_and!.
      * by split_and!.
    + injection Hreq as -> ->. cbn [step obj fst] in *. by split_and!.
  - unfold newly_subscribed. rewrite Hreq.
    destruct (step_subs_kept s ev Hreq) as [-> ->].
    rewrite !app_nil_r. split_and!; try done.
    destruct (step_subs_kept s ev Hreq) as [Hs _]. by rewrite <- Hs.
Qed.

(** X11 — A delivery from a subscribed feed never raises while the process
    is in its loop, provided the feed's address splits at '.feeds.' into
    two pieces and the writer takes the frames: the buffer and its start
    time are there when the handler looks them up, and a file is open when
    it writes. *)
Theorem subscribed_delivery_returns s l d current_time
    agent_address feed_name :
  reachable env s →
  proc s = Sleeping l →
  address (feed_of d) ∈ subscribed_feeds (obj s) →
  split_address (address (feed_of d)) = inr (agent_address, feed_name) →
  (∀ w frame, sink_accepts env w frame = true) →
  (step env s (Deliver d current_time)).2 = Returned.
Proof.
  intros Hreach Hp Hsub Hsplit Hacc.
  pose proof (reachable_wf env s Hreach) as (Hk & Hst & _).
  destruct (reachable_files_ok s Hreach) as [_ Hl].
  destruct (Hl l Hp) as [Hf _].
  cbn [step snd]. set (st := obj s) in *.
  destruct (aggregate st) eqn:Hrun.
  2: { assert (H : _data_handler env d current_time st = Ok tt st).
       { unfold _data_handler. unfold_monad. by rewrite Hrun. }
       by rewrite H. }
  destruct d as [data feed|data feed]; cbn [feed_of] in *.
  - rewrite data_handler_buffered by done.
    destruct (write_frame_to_file_ok _ _ _ data st Hsplit Hf Hacc)
      as [st' ->]. done.
  - rewrite data_handler_unbuffered by done. cbv zeta.
    set (addr := address feed) in *.
    assert (Hb : is_Some (Dict.get (buffers st) addr))
      by (apply Dict.get_is_Some_keys; by rewrite Hk).
    destruct Hb as [b Hb]. rewrite Hb.
    set (st1 := if is_nil b then _ else st).
    assert (Hf1 : is_Some (file st1)) by (subst st1; by destruct b).
    assert (Ht : is_Some (buffer_start_times st1 !! addr)).
    { subst st1. destruct b as [|p b]; cbn [is_nil]; red_state.
      - rewrite lookup_insert_eq. eauto.
      - by apply (Hst addr (p :: b)). }
    destruct Ht as [t0 ->].
    destruct (Qgtb _ _); [|done].
    destruct (write_frame_to_file_ok _ _ _ b st1 Hsplit Hf1 Hacc)
      as [st' ->]. done.
Qed.

(** X12 — A start of the process that goes through. [data_dir] was a
    string; the flag is set; a writer with no frame yet, on the path made
    from [data_dir] and the clock, is the open file. With no file before,
    nothing else changes. With a file left from an earlier run, that file
    first gets the frames of the buffers that are not empty and one more
    end-of-processing frame, and is let go. *)
Theorem start_opens_a_file s params now :
  reachable env s →
  proc s = Idle →
  (step env s (Start params now)).2 = Returned →
  let s' := (step env s (Start params now)).1 in
  let params' := default (mkStartParams None None None) params in
  ∃ d,
    default (PStr "data/") (p_data_dir params') = PStr d ∧
    proc s'
    = Sleeping (mkLocals now
                  (default (PNum 3600) (p_time_per_file params')) (PStr d)) ∧
    aggregate (obj s') = true ∧
    filename (obj s') = file_path env (sub_dir_path env d now) now ∧
    file (obj s')
    = Some (mkWriter (file_path env (sub_dir_path env d now) now) []) ∧
    match file (obj s) with
    | None =>
        released (obj s') = released (obj s) ∧
        buffers (obj s') = buffers (obj s) ∧
        serializer_calls (obj s') = serializer_calls (obj s)
    | Some w =>
        ∃ frames,
          Forall2 (fun kv frame => make_frame kv.1 kv.2 = inr frame)
            (filter (fun kv => is_nil kv.2 = false) (buffers (obj s)))
            frames ∧
          released (obj s')
          = released (obj s)
              ++ [mkWriter (w_filename w)
                    (w_frames w ++ frames ++ [EndProcessing])] ∧
          buffers (obj s') = emptied (buffers (obj s))
    end.
Proof.
  intros Hreach Hp.
  pose proof (wf_NoDup_keys _ (reachable_wf env s Hreach)) as Hnd.
  cbv zeta. rewrite step_start_idle by done.
  set (dd := default (PStr "data/") _).
  set (st0 := with_aggregate true (obj s)).
  pose proof (new_file_ok dd now st0) as Hn.
  destruct (new_file env dd now st0) as [ts' st'|e st']; [|done].
  intros _. cbn [fst obj proc].
  destruct (Hn ts' st' eq_refl) as (-> & d & st1 & Hd & He & _ & _ & ->).
  exists d. rewrite Hd. red_state.
  change (file st0) with (file (obj s)) in He.
  destruct (file (obj s)) as [w|] eqn:Hw.
  - pose proof (end_file_account env st0 Hnd) as Ha.
    pose proof (end_file_flag st0) as Hfl.
    rewrite He in Ha, Hfl. destruct Ha as (Hb & Hr & _).
    destruct (end_file_frames _ _ He) as (w' & frames & Hw' & HF & Hf1).
    change (file st0) with (file (obj s)) in Hw'.
    rewrite Hw in Hw'. injection Hw' as <-.
    split_and!; try done.
    exists frames. split_and!; try done.
    by rewrite Hr, Hf1.
  - subst st1. split_and!; try done.
    change (file st0) with (file (obj s)). rewrite Hw. simpl.
    by rewrite app_nil_r.
Qed.

(** X13 — The handler of the agent_activity feed never raises, and what it
    does is what the subscription requests for the feeds of the message
    that ask for aggregation do, one after the other in the order of the
    message; a message about a removed agent, or one without feeds, does
    nothing at all, so a feed once subscribed stays subscribed. *)
Theorem new_agent_handler_as_requests action feeds s :
  let evs := requests_of action feeds in
  _new_agent_handler action feeds (obj s) = Ok tt (obj (run env s evs).1) ∧
  proc (run env s evs).1 = proc s ∧
  Forall (fun o => o = Returned) (run env s evs).2 ∧
  (action = "removed" ∨ feeds = None →
   _new_agent_handler action feeds (obj s) = Ok tt (obj s)).
Proof.
  cbv zeta. unfold _new_agent_handler, requests_of.
  destruct (String.eqb action "removed") eqn:Ha.
  { by split_and!. }
  destruct feeds as [feeds|].
  - destruct (subscribe_flagged_run feeds s) as (H1 & H2 & H3).
    split_and!; try done.
    intros [->|?]; [|done]. by rewrite String.eqb_refl in Ha.
  - by split_and!.
Qed.

(** X14 — After the handler of the agent_activity feed has run, the
    subscribed feeds are those subscribed before and the feeds of the
    message that ask for aggregation (none for a removed agent); and
    the same message a second time changes nothing. *)
Theorem new_agent_handler_idempotent action feeds st :
  let st' := final_state (_new_agent_handler action feeds st) in
  (∀ a, a ∈ subscribed_feeds st'
        ↔ a ∈ subscribed_feeds st ∨
          (action ≠ "removed" ∧
           ∃ feed, feed ∈ default [] feeds ∧ flagged feed ∧
                   a = feed_address_of (f_agent_address feed)
                         (f_feed_name feed))) ∧
  _new_agent_handler action feeds st' = Ok tt st'.
Proof.
  cbv zeta. unfold _new_agent_handler.
  destruct (String.eqb action "removed") eqn:Ha.
  { apply String.eqb_eq in Ha. split; [|done]. intros a.
    split; [by left | intros [?|[? _]]; done]. }
  apply String.eqb_neq in Ha.
  destruct feeds as [feeds|]; cbn [default].
  - split.
    + intros a. rewrite subscribe_flagged_subscribed. split.
      * intros [?|?]; [by left | by right].
      * intros [?|[_ ?]]; [by left | by right].
    + apply subscribe_flagged_done. intros feed Hin Hfl.
      apply subscribe_flagged_subscribed. right. by exists feed.
  - split; [|done]. intros a. split; [by left|].
    intros [?|(_ & feed & Hin & _)]; [done|]. by apply elem_of_nil in Hin.
Qed.

End Further.

(** ** The further properties at work *)

Local Open Scope Q_scope.

(** Two feeds subscribed, the process started, one sample of the second
    feed in its buffer. *)
Definition press : Feed := mkFeed "dev2.feeds.press" 10.

Definition two_feeds : Sys :=
  (run lab_env init_sys
     [AddFeed "dev1" "therm"; AddFeed "dev2" "press"; Start None 0;
      Deliver (Unbuffered sample1 press) 0]).1.

(** The three samples delivered, the third having flushed the other two. *)
Definition before_rotation : Sys :=
  (run lab_env after_two [Deliver (Unbuffered sample3 therm) 1.2]).1.

(** The system after the whole run: the process has returned, the second
    file is still the open one. *)
Definition after_whole_run : Sys := (run lab_env init_sys whole_run).1.

Definition loop_locals : Locals := mkLocals 0 (PNum 3600) (PStr "data/").

Lemma frame_tags_round_trip_witness :
  address therm = feed_address_of "dev1" "therm" ∧
  ∃ tods timestamps,
    make_frame (feed_address_of "dev1" "therm") [sample1; sample2]
    = inr (Housekeeping "dev1" "therm" tods timestamps).
Proof.
  split.
  - apply (proj1 frame_tags_round_trip (address therm) [sample1]
             "dev1" "therm" [("ch1", [10])] [("ch1", [0])]).
    reflexivity.
  - apply (proj2 frame_tags_round_trip "dev1" "therm" [sample1; sample2]);
      reflexivity.
Defined.

Lemma delivery_touches_one_feed_witness :
  let st' := final_state
               (_data_handler lab_env (Unbuffered sample2 therm) 0.5
                  (obj two_feeds)) in
  Dict.get (buffers st') "dev2.feeds.press" = Some [sample1] ∧
  buffer_start_times st' !! "dev2.feeds.press" = Some 0.
Proof.
  pose proof (delivery_touches_one_feed lab_env (Unbuffered sample2 therm)
                0.5 (obj two_feeds)) as H.
  cbv zeta in *. destruct H as (_ & _ & _ & _ & _ & _ & H & _).
  destruct (H "dev2.feeds.press") as [Hb Ht]; [done|].
  split; [rewrite Hb | rewrite Ht]; reflexivity.
Defined.

Lemma rotation_closes_and_opens_witness :
  let s := before_rotation in
  let s' := (step lab_env s (Wake 4000 4000)).1 in
  ∃ w frames,
    file (obj s) = Some w ∧
    released (obj s')
    = released (obj s)
        ++ [mkWriter (w_filename w) (w_frames w ++ frames ++ [EndProcessing])] ∧
    file (obj s') = Some (mkWriter "data/16043/2020-11-03-01-06-40.g3" []) ∧
    buffers (obj s') = emptied (buffers (obj s)).
Proof.
  assert (Hreach : reachable lab_env before_rotation)
    by apply reachable_run_from, reachable_run_from, reachable_run.
  assert (Hlt : 3600 < 4000 - ts loop_locals) by (vm_compute; reflexivity).
  pose proof (rotation_closes_and_opens lab_env before_rotation loop_locals
                3600 4000 4000 Hreach eq_refl eq_refl eq_refl Hlt eq_refl)
    as H.
  cbv zeta in *.
  destruct H as (w & frames & d & Hw & Hd & _ & Hr & Hf & _ & Hb & _).
  injection Hd as <-. exists w, frames. split_and!; [exact Hw | exact Hr | | exact Hb].
  rewrite Hf. reflexivity.
Defined.

Lemma closed_files_end_marked_witness :
  Forall (fun w => last (w_frames w) = Some EndProcessing)
    (released (obj after_whole_run)) ∧
  (released (obj (step lab_env after_whole_run Stop).1)
   = released (obj after_whole_run) ∨
   ∃ w, released (obj (step lab_env after_whole_run Stop).1)
        = released (obj after_whole_run) ++ [w]).
Proof.
  assert (Hreach : reachable lab_env after_whole_run)
    by apply reachable_run.
  destruct (closed_files_end_marked lab_env after_whole_run Hreach)
    as [H1 H2].
  split; [exact H1 | exact (H2 Stop)].
Defined.

Lemma file_open_in_loop_witness :
  is_Some (file (obj after_two)) ∧
  is_Some (file (obj (step lab_env after_two (Wake 4000 4000)).1)).
Proof.
  assert (Hreach : reachable lab_env after_two)
    by apply reachable_run_from, reachable_run.
  destruct (proj1 (file_open_in_loop lab_env) after_two loop_locals
              Hreach eq_refl) as [Hf _].
  split; [exact Hf|].
  exact (proj2 (file_open_in_loop lab_env) after_two (Wake 4000 4000) Hf).
Defined.


Lemma subscriptions_follow_requests_witness :
  let st := obj after_two in
  let st' := obj (step lab_env after_two (AddFeed "dev2" "press")).1 in
  registrations st' = registrations st ++ [("dev2", "press")] ∧
  subscribed_feeds st' = subscribed_feeds st ++ ["dev2.feeds.press"] ∧
  buffers st' = buffers st ++ [("dev2.feeds.press", [])].
Proof.
  assert (Hreach : reachable lab_env after_two)
    by apply reachable_run_from, reachable_run.
  pose proof (subscriptions_follow_requests lab_env after_two
                (AddFeed "dev2" "press") Hreach) as H.
  cbv zeta in *. destruct H as (H1 & H2 & _ & H3).
  split_and!; [exact H1 | exact H2 |].
  apply H3. discriminate.
Defined.

Lemma subscribed_delivery_returns_witness :
  (step lab_env after_two (Deliver (Unbuffered sample3 therm) 1.2)).2
  = Returned.
Proof.
  assert (Hreach : reachable lab_env after_two)
    by apply reachable_run_from, reachable_run.
  assert (Hin : address (feed_of (Unbuffered sample3 therm))
                ∈ subscribed_feeds (obj after_two))
    by (vm_compute; apply list_elem_of_here).
  apply (subscribed_delivery_returns lab_env after_two loop_locals
           (Unbuffered sample3 therm) 1.2 "dev1" "therm"
           Hreach eq_refl Hin eq_refl).
  intros w frame. reflexivity.
Defined.

Lemma start_opens_a_file_witness :
  let s := after_whole_run in
  let s' := (step lab_env s (Start None 5000)).1 in
  aggregate (obj s') = true ∧
  file (obj s') = Some (mkWriter "data/16043/2020-11-03-01-06-40.g3" []) ∧
  ∃ w frames,
    file (obj s) = Some w ∧
    last (w_frames w) = Some EndProcessing ∧
    released (obj s')
    = released (obj s)
        ++ [mkWriter (w_filename w) (w_frames w ++ frames ++ [EndProcessing])].
Proof.
  assert (Hreach : reachable lab_env after_whole_run)
    by apply reachable_run.
  assert (Hp : proc after_whole_run = Idle) by (vm_compute; reflexivity).
  assert (Ho : (step lab_env after_whole_run (Start None 5000)).2 = Returned)
    by (vm_compute; reflexivity).
  assert (Hw : ∃ w, file (obj after_whole_run) = Some w ∧
                    last (w_frames w) = Some EndProcessing)
    by (vm_compute; eexists; split; reflexivity).
  pose proof (start_opens_a_file lab_env after_whole_run None 5000
                Hreach Hp Ho) as H.
  cbv zeta in *. destruct H as (d & Hd & _ & Ha & _ & Hf & Hm).
  destruct Hw as (w & Hw & Hl). rewrite Hw in Hm.
  destruct Hm as (frames & _ & Hr & _).
  split_and!; [exact Ha | |].
  - rewrite Hf. injection Hd as <-. vm_compute. reflexivity.
  - exists w, frames. split_and!; [exact Hw | exact Hl | exact Hr].
Defined.

Lemma new_agent_handler_as_requests_witness :
  _new_agent_handler "removed"
    (Some [mkFeedInfo "dev2" "press" (Some true)]) (obj after_two)
  = Ok tt (obj after_two).
Proof.
  destruct (new_agent_handler_as_requests lab_env "removed"
              (Some [mkFeedInfo "dev2" "press" (Some true)]) after_two)
    as (_ & _ & _ & H).
  apply H. left. reflexivity.
Defined.


Lemma new_agent_handler_idempotent_witness :
  let message := Some [mkFeedInfo "dev2" "press" (Some true);
                       mkFeedInfo "dev3" "flow" None] in
  let st' := final_state (_new_agent_handler "added" message (obj after_two)) in
  "dev2.feeds.press" ∈ subscribed_feeds st' ∧
  _new_agent_handler "added" message st' = Ok tt st'.
Proof.
  destruct (new_agent_handler_idempotent "added"
              (Some [mkFeedInfo "dev2" "press" (Some true);
                     mkFeedInfo "dev3" "flow" None]) (obj after_two))
    as [H1 H2].
  cbv zeta in *. split; [|exact H2].
  apply H1. right. split; [discriminate|].
  exists (mkFeedInfo "dev2" "press" (Some true)).
  split_and!; [apply list_elem_of_here | reflexivity | reflexivity].
Defined.
